(** * Plane contact and anisotropic friction of PyElastica: [elastica/interaction.py]

    A shallow embedding of the interaction module and the properties of
    its slip-velocity regularizer, its normal-contact resolution and its
    kinetic-friction routine.

    Modelling conventions.
    - A [np.float64] is idealised as an exact rational ([Q]); equality of
      numbers is [Qeq] ([==]).  Rounding, infinities and signed zeros are
      outside the model.  [np.sqrt], which leaves the rationals, is taken
      as a parameter on the non-negative numbers and yields NaN below 0.
    - A rod array of shape (3, M) is the list of its M columns, each a
      [vec3]; an array of shape (1, N) or (N,) is a [list Q].  The plane
      normal has shape (1, 3) and the plane origin shape (3, 1): the only
      shapes for which lines 32 and 47 of the module type-check.
    - numpy broadcasting along the last axis, bounds checks of index
      arrays and Python's arity check of a call are written out; what
      raises in Python is a [Raise] in the [result] monad.
    - In-place updates of [rod.external_forces] are explicit state
      passing: a routine returns the rod it leaves behind. *)

From Stdlib Require Import QArith Qabs Qminmax Lqa.
From stdpp Require Import base tactics option list.

Local Open Scope Q_scope.

(** ** Python exceptions and the result monad *)

Inductive PyExc : Set := TypeError | ValueError | IndexError | AttributeError.

Inductive result (A : Type) : Type :=
  | Ok (a : A)
  | Raise (e : PyExc).
Arguments Ok {A} a.
Arguments Raise {A} e.

#[global] Instance result_ret : MRet result := fun A a => Ok a.
#[global] Instance result_bind : MBind result := fun A B f m =>
  match m with
  | Ok a => f a
  | Raise e => Raise e
  end.

(** ** Numbers *)

(** [x > y] on floats. *)
Definition Qgtb (x y : Q) : bool := negb (Qle_bool x y).

Definition half : Q := 5 # 10.

(** [np.sign] on a number. *)
Definition Qsign (x : Q) : Q :=
  match Qcompare x 0 with
  | Lt => -(1)
  | Eq => 0
  | Gt => 1
  end.

(** ** Three-vectors: one column of a (3, N) array *)

Record vec3 : Set := V3 { vx : Q; vy : Q; vz : Q }.

Definition vzero : vec3 := V3 0 0 0.
Definition vadd (a b : vec3) : vec3 := V3 (vx a + vx b) (vy a + vy b) (vz a + vz b).
Definition vsub (a b : vec3) : vec3 := V3 (vx a - vx b) (vy a - vy b) (vz a - vz b).
Definition vscale (c : Q) (a : vec3) : vec3 := V3 (c * vx a) (c * vy a) (c * vz a).
Definition vneg (a : vec3) : vec3 := V3 (- vx a) (- vy a) (- vz a).
Definition vdot (a b : vec3) : Q := vx a * vx b + vy a * vy b + vz a * vz b.

(** Componentwise numeric equality of vectors. *)
Definition veq (a b : vec3) : Prop := vx a == vx b /\ vy a == vy b /\ vz a == vz b.
Infix "=v=" := veq (at level 70, no associativity).

(** ** numpy primitives *)

(** Binary elementwise operation with broadcasting along the last axis:
    equal lengths pair up, a length-1 operand is stretched, anything else
    is a [ValueError]. *)
Definition broadcast2 {A B C} (f : A -> B -> C) (xs : list A) (ys : list B)
  : result (list C) :=
  if Nat.eqb (length xs) (length ys) then Ok (zip_with f xs ys)
  else match xs, ys with
       | [x], _ => Ok (map (f x) ys)
       | _, [y] => Ok (map (fun x => f x y) xs)
       | _, _ => Raise ValueError
       end.

(** [a[..., :-1]] and [a[..., 1:]]. *)
Definition init_slice {A} (a : list A) : list A := take (pred (length a)) a.
Definition tail_slice {A} (a : list A) : list A := drop 1 a.

(** [0.5 * (a[..., :-1] + a[..., 1:])]: node values averaged per element.
    Both slices have the same length, so no broadcasting error arises. *)
Definition node_average (a : list vec3) : list vec3 :=
  map (vscale half) (zip_with vadd (init_slice a) (tail_slice a)).

(** [n @ a] for [n] of shape (1, 3) and [a] of shape (3, N). *)
Definition matvec (n : vec3) (a : list vec3) : list Q := map (vdot n) a.

(** [np.outer(n, s)] for [n] of shape (1, 3) and [s] of shape (1, N). *)
Definition outer (n : vec3) (s : list Q) : list vec3 := map (fun c => vscale c n) s.

(** Column indices of the true entries, counted from [i]. *)
Fixpoint nonzero_from (i : nat) (mask : list bool) : list nat :=
  match mask with
  | [] => []
  | b :: mask' => (if b then [i] else []) ++ nonzero_from (S i) mask'
  end.

(** [np.where(mask)] on a (1, N) boolean array: the pair of the row
    indices (all 0) and the column indices of the true entries. *)
Definition np_where (mask : list bool) : list nat * list nat :=
  let cols := nonzero_from 0 mask in (replicate (length cols) 0%nat, cols).

(** The pair returned by [np.where] used as ONE index: numpy converts it
    to an index array of shape (2, m), read here in row-major order. *)
Definition as_index_array (pts : list nat * list nat) : list nat := pts.1 ++ pts.2.

Definition in_bounds {A} (a : list A) (idx : list nat) : bool :=
  forallb (fun i => Nat.ltb i (length a)) idx.

(** [a[..., idx] = v] for a scalar [v] stored in every row. *)
Definition setitem_scalar {A} (a : list A) (idx : list nat) (v : A) : result (list A) :=
  if in_bounds a idx then Ok (foldl (fun acc i => <[i:=v]> acc) a idx)
  else Raise IndexError.

(** The value of an assignment stretched to a row of [m] entries. *)
Definition broadcast_to {A} (value : list A) (m : nat) : result (list A) :=
  if Nat.eqb (length value) m then Ok value
  else match value with
       | [v] => Ok (replicate m v)
       | _ => Raise ValueError
       end.

(** Element [j] of [vrow] stored at position [irow[j]], left to right. *)
Definition put {A} (a : list A) (irow : list nat) (vrow : list A) : list A :=
  foldl (fun acc iv => <[iv.1 := iv.2]> acc) a (zip irow vrow).

(** [a[0, pts] = value] for [a] and [value] of shape (1, n) and [pts] the
    pair of [np.where]: the index array has shape (2, m), so [value] must
    broadcast to (2, m); the writes go row by row, the later one staying. *)
Definition setitem_row0_pair (a : list Q) (pts : list nat * list nat) (value : list Q)
  : result (list Q) :=
  vrow ← broadcast_to value (length pts.2);
  if in_bounds a (as_index_array pts)
  then Ok (put (put a pts.1 vrow) pts.2 vrow)
  else Raise IndexError.

(** ** [linear_interpolation_slip] (lines 9-17) *)

(** The value written at the slip points (lines 14-16), per entry of
    [abs_velocity_slip].  The division is that of the rationals: it is
    the code's for a threshold other than 0; at threshold 0 numpy divides
    to an infinity, which the rationals do not have. *)
Definition slip_ramp (velocity_threshold abs_slip : Q) : Q :=
  Qabs (1 - Qmin 1 (abs_slip / velocity_threshold - 1)).

(** [velocity_slip] has shape (1, n), as [velocity_slip.shape[1]] and the
    row index 0 of line 14 require. *)
Definition linear_interpolation_slip (velocity_slip : list Q) (velocity_threshold : Q)
  : result (list Q) :=
  let abs_velocity_slip := map Qabs velocity_slip in
  let slip_function := replicate (length velocity_slip) 1 in
  let slip_points :=
    np_where (map (fun a => Qgtb (Qabs a) velocity_threshold) abs_velocity_slip) in
  setitem_row0_pair slip_function slip_points
    (map (slip_ramp velocity_threshold) abs_velocity_slip).

(** The regularizer as section 4.1 of the specification words it: the
    ramp at or below the threshold, 1 above it. *)
Definition spec_factor (velocity_threshold slip_velocity : Q) : Q :=
  if Qle_bool (Qabs slip_velocity) velocity_threshold
  then Qabs (1 - Qmin 1 (Qabs slip_velocity / velocity_threshold - 1))
  else 1.

(** ** [InteractionPlane] (lines 22-51) *)

Record InteractionPlane : Set := {
  k : Q;
  nu : Q;
  origin_plane : vec3;
  normal_plane : vec3;
  surface_tol : Q
}.

(** [InteractionPlane.__init__] (lines 23-28). *)
Definition InteractionPlane_init (k nu : Q) (origin_plane normal_plane : vec3)
  : InteractionPlane :=
  {| k := k; nu := nu; origin_plane := origin_plane;
     normal_plane := normal_plane; surface_tol := 1 # 10000 |}.

Record Rod : Set := {
  position : list vec3;
  velocity : list vec3;
  tangents : list vec3;
  r : list Q;
  internal_forces : list vec3;
  external_forces : list vec3
}.

Definition set_external_forces (rod : Rod) (f : list vec3) : Rod :=
  {| position := position rod; velocity := velocity rod; tangents := tangents rod;
     r := r rod; internal_forces := internal_forces rod; external_forces := f |}.

(** [target += value] in place: [value] must broadcast to the shape of
    [target]. *)
Definition iadd (target value : list vec3) : result (list vec3) :=
  v ← broadcast_to value (length target);
  Ok (zip_with vadd target v).

(** [a[..., :-1] += value] and [a[..., 1:] += value]. *)
Definition iadd_init_slice (a value : list vec3) : result (list vec3) :=
  s ← iadd (init_slice a) value;
  Ok (s ++ drop (pred (length a)) a).

Definition iadd_tail_slice (a value : list vec3) : result (list vec3) :=
  s ← iadd (tail_slice a) value;
  Ok (take 1 a ++ s).

(** The intermediate arrays of [apply_normal_force], under the names the
    source gives them. *)
Definition distance_from_plane (self : InteractionPlane) (rod : Rod) : list Q :=
  let element_x := node_average (position rod) in
  matvec (normal_plane self) (map (fun x => vsub x (origin_plane self)) element_x).

Definition no_contact_pts (self : InteractionPlane) (rod : Rod) : list nat * list nat :=
  np_where (map (fun d => Qgtb d (surface_tol self)) (distance_from_plane self rod)).

Definition forces_normal_direction (self : InteractionPlane) (rod : Rod)
  : result (list Q) :=
  nodal_total_forces ← broadcast2 vadd (internal_forces rod) (external_forces rod);
  let total_forces := node_average nodal_total_forces in
  Ok (matvec (normal_plane self) total_forces).

(** Lines 37-38: the projected force, zeroed through the pair of
    [np.where] used as one index array. *)
Definition forces_normal (self : InteractionPlane) (fnd : list Q) : result (list vec3) :=
  setitem_scalar (outer (normal_plane self) fnd)
    (as_index_array (np_where (map (fun f => Qgtb f 0) fnd))) vzero.

Definition elastic_force (self : InteractionPlane) (rod : Rod) : result (list vec3) :=
  d ← broadcast2 Qminus (distance_from_plane self rod) (r rod);
  let plane_penetration := map (fun x => Qmin x 0) d in
  Ok (map (vscale (- k self)) (outer (normal_plane self) plane_penetration)).

Definition damping_force (self : InteractionPlane) (rod : Rod) : list vec3 :=
  let element_v := node_average (velocity rod) in
  let normal_v := matvec (normal_plane self) element_v in
  map (vscale (- nu self)) (outer (normal_plane self) normal_v).

(** Lines 46-47. *)
Definition normal_force_plane (self : InteractionPlane) (rod : Rod) (fn : list vec3)
  : result (list vec3) :=
  setitem_scalar (map vneg fn) (no_contact_pts self rod).2 vzero.

Definition total_force_plane (nfp elastic damping : list vec3) : result (list vec3) :=
  s ← broadcast2 vadd nfp elastic;
  broadcast2 vadd s damping.

(** Lines 31-48 of [apply_normal_force]: the array it returns
    ([normal_force_plane]) and the array it splits onto the nodes
    ([total_force_plane]). *)
Definition plane_response (self : InteractionPlane) (rod : Rod)
  : result (list vec3 * list vec3) :=
  fnd ← forces_normal_direction self rod;
  fn ← forces_normal self fnd;
  elastic ← elastic_force self rod;
  let damping := damping_force self rod in
  nfp ← normal_force_plane self rod fn;
  total ← total_force_plane nfp elastic damping;
  Ok (nfp, total).

(** [InteractionPlane.apply_normal_force] (lines 30-51): the returned
    array and the rod as the call leaves it. *)
Definition apply_normal_force (self : InteractionPlane) (rod : Rod)
  : result (list vec3 * Rod) :=
  resp ← plane_response self rod;
  let halved := map (vscale half) resp.2 in
  ext1 ← iadd_init_slice (external_forces rod) halved;
  ext2 ← iadd_tail_slice ext1 halved;
  Ok (resp.1, set_external_forces rod ext2).

(** The rod arrays as the data model documents them: M nodes, M - 1
    elements. *)
Definition well_shaped (rod : Rod) : bool :=
  Nat.eqb (length (velocity rod)) (length (position rod))
  && Nat.eqb (length (internal_forces rod)) (length (position rod))
  && Nat.eqb (length (external_forces rod)) (length (position rod))
  && Nat.eqb (length (r rod)) (pred (length (position rod)))
  && Nat.eqb (length (tangents rod)) (pred (length (position rod))).

(** ** [AnistropicFrictionalPlane] (lines 58-92) *)

Record AnistropicFrictionalPlane : Set := {
  base : InteractionPlane;
  slip_velocity_tol : Q;
  static_mu_forward : Q;
  static_mu_backward : Q;
  static_mu_sideways : Q;
  kinetic_mu_forward : Q;
  kinetic_mu_backward : Q;
  kinetic_mu_sideways : Q
}.

(** [a[i]] on a one-dimensional array. *)
Definition getitem (a : list Q) (i : nat) : result Q :=
  match a !! i with
  | Some x => Ok x
  | None => Raise IndexError
  end.

(** [AnistropicFrictionalPlane.__init__] (lines 59-68). *)
Definition AnistropicFrictionalPlane_init (k nu : Q) (origin_plane normal_plane : vec3)
    (slip_velocity_tol : Q) (static_mu_array kinetic_mu_array : list Q)
  : result AnistropicFrictionalPlane :=
  let b := InteractionPlane_init k nu origin_plane normal_plane in
  sf ← getitem static_mu_array 0;
  sb ← getitem static_mu_array 1;
  ss ← getitem static_mu_array 2;
  kf ← getitem kinetic_mu_array 0;
  kb ← getitem kinetic_mu_array 1;
  ks ← getitem kinetic_mu_array 2;
  Ok {| base := b; slip_velocity_tol := slip_velocity_tol;
        static_mu_forward := sf; static_mu_backward := sb; static_mu_sideways := ss;
        kinetic_mu_forward := kf; kinetic_mu_backward := kb; kinetic_mu_sideways := ks |}.

(** A float that may be NaN: what [np.sqrt] and [np.sign] range over. *)
Inductive npfloat : Set := Fin (q : Q) | NaN.

Definition fl_lift2 (f : Q -> Q -> Q) (a b : npfloat) : npfloat :=
  match a, b with
  | Fin x, Fin y => Fin (f x y)
  | _, _ => NaN
  end.

Definition np_sign (x : npfloat) : npfloat :=
  match x with
  | Fin q => Fin (Qsign q)
  | NaN => NaN
  end.

(** Positional arguments of a Python call. *)
Inductive pyobj : Set :=
  | PyPlane (p : AnistropicFrictionalPlane)
  | PyRod (rod : Rod).

(** The bound method [self.apply_normal_force] called on a list of
    positional arguments: Python checks the arity before the body runs,
    and a plane passed where the rod is expected has no [position]. *)
Definition call_apply_normal_force (self : AnistropicFrictionalPlane) (args : list pyobj)
  : result (list vec3 * Rod) :=
  match args with
  | [PyRod rod] => apply_normal_force (base self) rod
  | [PyPlane _] => Raise AttributeError
  | _ => Raise TypeError
  end.

(** [np.einsum('ijk,ijk->jk', a, b)] on operands of shape (3, N): three
    subscripts for two dimensions, which numpy rejects.  The result type
    is that of the per-element product line 79 announces. *)
Definition einsum_ijk_ijk_jk (a b : list vec3) : result (list Q) := Raise ValueError.

(** [x - t] for a Python float and a tuple: unsupported operand types;
    no value is ever produced. *)
Definition float_sub_tuple {A B} (x : Q) (t : A * B) : result Empty_set := Raise TypeError.

(** The signed per-element dot product the specification asks for. *)
Definition batch_dot (a b : list vec3) : list Q := zip_with vdot a b.

Section KineticFriction.

(** The square root of a non-negative float, as the platform rounds it. *)
Variable sqrt_fl : Q -> Q.

Definition np_sqrt (x : Q) : npfloat :=
  if Qgtb 0 x then NaN else Fin (sqrt_fl x).

(** Lines 82-83, per element. *)
Definition kinetic_mu (self : AnistropicFrictionalPlane) (sign : npfloat) : npfloat :=
  fl_lift2 Qmult (Fin half)
    (fl_lift2 Qplus
       (fl_lift2 Qmult (Fin (kinetic_mu_forward self)) (fl_lift2 Qminus (Fin 1) sign))
       (fl_lift2 Qmult (Fin (kinetic_mu_backward self)) (fl_lift2 Qplus (Fin 1) sign))).

(** Line 80 applied to the array the [einsum] would deliver. *)
Definition axial_slip_velocity (dots : list Q) : list npfloat := map np_sqrt dots.

(** [AnistropicFrictionalPlane.apply_kinetic_friction] (lines 71-92).
    Line 84 binds a tuple, so the subtraction that opens line 85 raises
    for every operand: lines 85-92 lie behind it. *)
Definition apply_kinetic_friction (self : AnistropicFrictionalPlane) (rod : Rod)
  : result Rod :=
  res ← call_apply_normal_force self [PyPlane self; PyRod rod];
  let normal_force_plane := res.1 in
  let rod := res.2 in
  let normal_plane_array :=
    outer (normal_plane (base self)) (replicate (length normal_force_plane) 1) in
  let axial_direction := tangents rod in
  let element_v := node_average (velocity rod) in
  dots ← einsum_ijk_ijk_jk element_v axial_direction;
  let axial_slip_velocity := axial_slip_velocity dots in
  let axial_slip_velocity_sign := map np_sign axial_slip_velocity in
  let kinetic_mu := map (kinetic_mu self) axial_slip_velocity_sign in
  let slip_function := (axial_slip_velocity, slip_velocity_tol self) in
  unreachable ← float_sub_tuple 1 slip_function;
  match unreachable : Empty_set with end.

End KineticFriction.

(** ** Notions used in the statements *)

(** The mask line 13 hands to [np.where]. *)
Definition slip_mask (v : list Q) (tol : Q) : list bool :=
  map (fun a => Qgtb (Qabs a) tol) (map Qabs v).

(** A column is a scalar multiple of the vector [n]. *)
Definition along (n c : vec3) : Prop := exists s : Q, c =v= vscale s n.

(** The arrays one run of lines 31-48 goes through. *)
Record response_trace (self : InteractionPlane) (rod : Rod)
    (fnd : list Q) (fn el nfp total : list vec3) : Prop := {
  trace_fnd : forces_normal_direction self rod = Ok fnd;
  trace_fn : forces_normal self fnd = Ok fn;
  trace_el : elastic_force self rod = Ok el;
  trace_nfp : normal_force_plane self rod fn = Ok nfp;
  trace_total : total_force_plane nfp el (damping_force self rod) = Ok total
}.

(** What element [j] adds to each of its two nodes (zero if there is no
    element [j]), and what the element before node [i] adds to it. *)
Definition elem_share (total : list vec3) (j : nat) : vec3 :=
  from_option (vscale half) vzero (total !! j).

Definition prev_share (total : list vec3) (i : nat) : vec3 :=
  match i with
  | O => vzero
  | S p => elem_share total p
  end.

(** ** Example configurations *)

(** A plane through the origin with normal [(0, 1, 0)], stiffness 1 and
    damping 1. *)
Definition ground : InteractionPlane := InteractionPlane_init 1 1 vzero (V3 0 1 0).

(** One element of radius 2 resting with its axis at height 1, and one
    element of radius 1/4 at height 1 moving down at speed 1. *)
Definition hovering_rod : Rod :=
  {| position := [V3 0 1 0; V3 1 1 0]; velocity := [vzero; vzero];
     tangents := [V3 1 0 0]; r := [2];
     internal_forces := [vzero; vzero]; external_forces := [vzero; vzero] |}.

Definition falling_rod : Rod :=
  {| position := [V3 0 1 0; V3 1 1 0]; velocity := [V3 0 (-(1)) 0; V3 0 (-(1)) 0];
     tangents := [V3 1 0 0]; r := [1 # 4];
     internal_forces := [vzero; vzero]; external_forces := [vzero; vzero] |}.

(** One element at height 0 moving against its tangent. *)
Definition backward_rod : Rod :=
  {| position := [V3 0 0 0; V3 1 0 0]; velocity := [V3 (-(1)) 0 0; V3 (-(1)) 0 0];
     tangents := [V3 1 0 0]; r := [1 # 4];
     internal_forces := [vzero; vzero]; external_forces := [vzero; vzero] |}.

(** One element lying on the plane under a net force of 1 towards it,
    sliding against its tangent at speed 2. *)
Definition sliding_rod : Rod :=
  {| position := [V3 0 0 0; V3 1 0 0]; velocity := [V3 (-(2)) 0 0; V3 (-(2)) 0 0];
     tangents := [V3 1 0 0]; r := [1 # 4];
     internal_forces := [V3 0 (-(1)) 0; V3 0 (-(1)) 0];
     external_forces := [vzero; vzero] |}.

(** A friction plane with forward kinetic coefficient 0.5 and slip
    threshold 1. *)
Definition half_forward_plane : AnistropicFrictionalPlane :=
  {| base := InteractionPlane_init 1 0 vzero (V3 0 1 0);
     slip_velocity_tol := 1;
     static_mu_forward := 0; static_mu_backward := 0; static_mu_sideways := 0;
     kinetic_mu_forward := 1 # 2; kinetic_mu_backward := 3; kinetic_mu_sideways := 0 |}.

(** Two elements on the plane: the net force presses the first one
    down and lifts the second one. *)
Definition seesaw_rod : Rod :=
  {| position := [V3 0 0 0; V3 1 0 0; V3 2 0 0]; velocity := [vzero; vzero; vzero];
     tangents := [V3 1 0 0; V3 1 0 0]; r := [1 # 4; 1 # 4];
     internal_forces := [V3 0 (-(4)) 0; vzero; V3 0 4 0];
     external_forces := [vzero; vzero; vzero] |}.

(** The sum of the columns of an array. *)
Definition vsum (a : list vec3) : vec3 := foldr vadd vzero a.

(** Force arrays of two and of three columns. *)
Definition ragged_rod : Rod :=
  {| position := [V3 0 0 0; V3 1 0 0; V3 2 0 0]; velocity := [vzero; vzero; vzero];
     tangents := [V3 1 0 0; V3 1 0 0]; r := [1 # 4; 1 # 4];
     internal_forces := [vzero; vzero];
     external_forces := [vzero; vzero; vzero] |}.

(** One element lying on the plane under a net force of 3 towards it. *)
Definition pressed_rod : Rod :=
  {| position := [V3 0 0 0; V3 1 0 0]; velocity := [vzero; vzero];
     tangents := [V3 1 0 0]; r := [1 # 4];
     internal_forces := [V3 0 (-(1)) 0; V3 0 (-(1)) 0];
     external_forces := [V3 0 (-(2)) 0; V3 0 (-(2)) 0] |}.

(** A rod of a single node. *)
Definition point_rod : Rod :=
  {| position := [V3 0 1 0]; velocity := [vzero]; tangents := []; r := [];
     internal_forces := [vzero]; external_forces := [V3 0 1 0] |}.

(** Three nodes at height 1 with force arrays of two columns only. *)
Definition overhang_rod : Rod :=
  {| position := [V3 0 1 0; V3 1 1 0; V3 2 1 0]; velocity := [vzero; vzero; vzero];
     tangents := [V3 1 0 0; V3 1 0 0]; r := [1 # 4; 1 # 4];
     internal_forces := [vzero; vzero]; external_forces := [vzero; vzero] |}.

(** * Properties *)

(** ** The result monad *)

Lemma bind_Ok {A B} (a : A) (f : A -> result B) : (Ok a ≫= f) = f a.
Proof. reflexivity. Qed.

Lemma bind_Raise {A B} (e : PyExc) (f : A -> result B) : (Raise e ≫= f) = Raise e.
Proof. reflexivity. Qed.

Lemma bind_Ok_inv {A B} (m : result A) (f : A -> result B) (b : B) :
  (m ≫= f) = Ok b -> exists a, m = Ok a /\ f a = Ok b.
Proof. destruct m as [a | e]; [by exists a | discriminate]. Qed.

(** ** Numbers and index arrays *)

Lemma Qgtb_true (x y : Q) : Qgtb x y = true <-> y < x.
Proof.
  unfold Qgtb. rewrite negb_true_iff.
  split.
  - intros H. apply Qnot_le_lt. intros Hle.
    apply Qle_bool_iff in Hle. congruence.
  - intros H. destruct (Qle_bool x y) eqn:E; [|reflexivity].
    apply Qle_bool_iff in E. exfalso. exact (Qlt_not_le _ _ H E).
Qed.

Lemma Qgtb_false (x y : Q) : Qgtb x y = false <-> x <= y.
Proof.
  unfold Qgtb. rewrite negb_false_iff. apply Qle_bool_iff.
Qed.

Lemma Qabs_Qabs (x : Q) : Qabs (Qabs x) = Qabs x.
Proof. destruct x as [a b]. simpl. by rewrite Z.abs_idemp. Qed.

Lemma nonzero_from_length_le (mask : list bool) (i : nat) :
  (length (nonzero_from i mask) <= length mask)%nat.
Proof.
  revert i. induction mask as [|b mask IH]; intros i; simpl; [lia|].
  rewrite length_app. specialize (IH (S i)). destruct b; simpl; lia.
Qed.

Lemma nonzero_from_full (mask : list bool) (i : nat) :
  length (nonzero_from i mask) = length mask ->
  nonzero_from i mask = seq i (length mask) /\ Forall (eq true) mask.
Proof.
  revert i. induction mask as [|b mask IH]; intros i; simpl; [done|].
  rewrite length_app. pose proof (nonzero_from_length_le mask (S i)) as Hle.
  destruct b; simpl; [|lia].
  intros H. destruct (IH (S i)) as [-> Hall]; [lia|].
  split; [done|]. by constructor.
Qed.

Lemma nonzero_from_all_true (mask : list bool) (i : nat) :
  Forall (eq true) mask -> nonzero_from i mask = seq i (length mask).
Proof.
  intros H. revert i. induction H as [|b mask <- _ IH]; intros i; simpl; [done|].
  by rewrite IH.
Qed.

Lemma nonzero_from_elem (mask : list bool) (i j : nat) :
  j ∈ nonzero_from i mask <->
  exists p, mask !! p = Some true /\ j = (i + p)%nat.
Proof.
  revert i. induction mask as [|b mask IH]; intros i; simpl.
  - split; [by intros ?%elem_of_nil | by intros (p & ? & _)].
  - rewrite elem_of_app, IH. split.
    + intros [Hj | (p & Hp & ->)].
      * destruct b; [|by apply elem_of_nil in Hj].
        apply list_elem_of_singleton in Hj as ->. exists 0%nat. split; [done | lia].
      * exists (S p). split; [done | lia].
    + intros ([|p] & Hp & ->).
      * left. simpl in Hp. injection Hp as ->. apply list_elem_of_singleton. lia.
      * right. exists p. split; [done | lia].
Qed.

Lemma in_bounds_spec {A} (a : list A) (idx : list nat) :
  in_bounds a idx = true <-> Forall (fun i => (i < length a)%nat) idx.
Proof.
  unfold in_bounds. rewrite forallb_forall, Forall_forall.
  split; intros H i Hi.
  - apply Nat.ltb_lt, H. by apply list_elem_of_In.
  - apply Nat.ltb_lt, H. by apply list_elem_of_In.
Qed.

Lemma nonzero_from_in_bounds {A} (a : list A) (mask : list bool) :
  length mask = length a -> in_bounds a (nonzero_from 0 mask) = true.
Proof.
  intros Hlen. apply in_bounds_spec, Forall_forall. intros j Hj.
  apply nonzero_from_elem in Hj as (p & Hp & ->).
  apply lookup_lt_Some in Hp. lia.
Qed.

(** ** Stores through index arrays *)

Lemma put_nil_l {A} (a vrow : list A) : put a [] vrow = a.
Proof. reflexivity. Qed.

Lemma put_seq {A} (vrow a : list A) (i : nat) :
  length a = (i + length vrow)%nat ->
  put a (seq i (length vrow)) vrow = take i a ++ vrow.
Proof.
  revert a i. induction vrow as [|x vrow IH]; intros a i Hlen; simpl in *.
  - rewrite put_nil_l, app_nil_r. apply eq_sym, take_ge. lia.
  - unfold put in *. simpl. rewrite IH by (rewrite length_insert; lia).
    rewrite (take_S_r _ _ x) by (apply list_lookup_insert_eq; lia).
    rewrite take_insert_ge by lia. by rewrite <- app_assoc.
Qed.

Lemma put_length {A} (irow : list nat) (a vrow : list A) :
  length (put a irow vrow) = length a.
Proof.
  unfold put. revert a vrow.
  induction irow as [|i irow IH]; intros a [|x vrow]; simpl; try done.
  by rewrite IH, length_insert.
Qed.

(** ** The slip-velocity regularizer *)

Lemma slip_mask_all (v : list Q) (tol : Q) :
  Forall (eq true) (slip_mask v tol) <-> Forall (fun x => tol < Qabs x) v.
Proof.
  unfold slip_mask. rewrite !Forall_fmap. apply Forall_proper; [|done].
  intros x. simpl. rewrite Qabs_Qabs.
  split; [intros H; by apply Qgtb_true | intros H; symmetry; by apply Qgtb_true].
Qed.

Lemma lis_all_slip (v : list Q) (tol : Q) :
  Forall (fun x => tol < Qabs x) v ->
  linear_interpolation_slip v tol = Ok (map (slip_ramp tol) (map Qabs v)).
Proof.
  intros Hall. apply slip_mask_all in Hall.
  unfold linear_interpolation_slip, setitem_row0_pair, np_where.
  fold (slip_mask v tol). rewrite (nonzero_from_all_true _ 0 Hall).
  assert (Hn : length (slip_mask v tol) = length v)
    by (unfold slip_mask; by rewrite !length_map).
  rewrite Hn. cbn [fst snd]. rewrite length_seq.
  set (value := map (slip_ramp tol) (map Qabs v)).
  assert (Hv : length value = length v) by (unfold value; by rewrite !length_map).
  unfold broadcast_to. rewrite Hv, Nat.eqb_refl, bind_Ok.
  assert (Hb : in_bounds (replicate (length v) 1)
                 (as_index_array (replicate (length v) 0%nat, seq 0 (length v))) = true).
  { apply in_bounds_spec. unfold as_index_array. cbn [fst snd].
    rewrite length_replicate. apply Forall_app. split.
    - apply Forall_forall. intros i [-> Hi]%elem_of_replicate. lia.
    - apply Forall_forall. intros i Hi%elem_of_seq. lia. }
  rewrite Hb. f_equal.
  replace (seq 0 (length v)) with (seq 0 (length value)) by (by rewrite Hv).
  rewrite put_seq by (rewrite put_length, length_replicate; lia).
  reflexivity.
Qed.

Lemma lis_single_stick (x tol : Q) :
  Qabs x <= tol -> linear_interpolation_slip [x] tol = Ok [1].
Proof.
  intros H. unfold linear_interpolation_slip, np_where. cbn [map nonzero_from].
  rewrite Qabs_Qabs. apply Qgtb_false in H. rewrite H. reflexivity.
Qed.

Lemma lis_ok_inv (v : list Q) (tol : Q) (out : list Q) :
  linear_interpolation_slip v tol = Ok out ->
  Forall (fun x => tol < Qabs x) v \/ exists x, v = [x] /\ Qabs x <= tol.
Proof.
  unfold linear_interpolation_slip, setitem_row0_pair, np_where.
  fold (slip_mask v tol). cbn [fst snd]. unfold broadcast_to.
  rewrite !length_map.
  destruct (Nat.eqb_spec (length v) (length (nonzero_from 0 (slip_mask v tol))))
    as [Heq | Hne].
  - intros _. left. apply slip_mask_all.
    apply (nonzero_from_full _ 0). unfold slip_mask at 2.
    rewrite !length_map. done.
  - destruct v as [|x [|y v]]; cbn [map]; try discriminate.
    intros _. right. exists x. split; [done|].
    apply Qgtb_false. rewrite <- (Qabs_Qabs x).
    destruct (Qgtb (Qabs (Qabs x)) tol) eqn:E; [|done].
    exfalso. apply Hne. unfold slip_mask. cbn. by rewrite E.
Qed.

Lemma lis_raise_inv (v : list Q) (tol : Q) (e : PyExc) :
  linear_interpolation_slip v tol = Raise e ->
  length v <> 1%nat /\ ~ Forall (fun x => tol < Qabs x) v.
Proof.
  intros H. split.
  - intros Hlen. destruct v as [|x [|y v]]; try discriminate.
    destruct (Qlt_le_dec tol (Qabs x)) as [Hlt | Hle].
    + rewrite lis_all_slip in H by (by constructor). discriminate.
    + rewrite lis_single_stick in H by done. discriminate.
  - intros Hall. rewrite lis_all_slip in H by done. discriminate.
Qed.

(** C1 (as the code has it): for a strictly positive threshold,
    whenever the regularizer returns, an element above the threshold
    carries the ramp [|1 - min(1, |v|/v_tol - 1)|] and an element at or
    below it carries exactly 1; the regularizer returns at least for a
    single element and whenever every element is above the threshold. *)
Theorem linear_interpolation_slip_elements (v : list Q) (tol : Q) :
  0 < tol ->
  match linear_interpolation_slip v tol with
  | Ok out =>
      length out = length v /\
      forall i x, v !! i = Some x ->
        (tol < Qabs x -> out !! i = Some (Qabs (1 - Qmin 1 (Qabs x / tol - 1)))) /\
        (Qabs x <= tol -> out !! i = Some 1)
  | Raise _ => length v <> 1%nat /\ ~ Forall (fun x => tol < Qabs x) v
  end.
Proof.
  intros _.
  destruct (linear_interpolation_slip v tol) as [out | e] eqn:E.
  - destruct (lis_ok_inv _ _ _ E) as [Hall | (x0 & -> & Hle)].
    + rewrite lis_all_slip in E by done. injection E as <-.
      split; [by rewrite !length_map|].
      intros i x Hx. split.
      * intros _. rewrite !list_lookup_fmap, Hx. reflexivity.
      * intros Hle. exfalso. rewrite Forall_lookup in Hall.
        exact (Qlt_not_le _ _ (Hall i x Hx) Hle).
    + rewrite lis_single_stick in E by done. injection E as <-.
      split; [done|]. intros [|i] x Hx; [|done]. injection Hx as <-. split.
      * intros Hlt. exfalso. exact (Qlt_not_le _ _ Hlt Hle).
      * done.
  - by apply (lis_raise_inv _ _ e).
Qed.

Lemma linear_interpolation_slip_elements_witness :
  0 < 1 /\
  match linear_interpolation_slip [3; -(3 # 2)] 1 with
  | Ok out =>
      length out = 2%nat /\
      forall i x, [3; -(3 # 2)] !! i = Some x ->
        (1 < Qabs x -> out !! i = Some (Qabs (1 - Qmin 1 (Qabs x / 1 - 1)))) /\
        (Qabs x <= 1 -> out !! i = Some 1)
  | Raise _ => 2%nat <> 1%nat /\ ~ Forall (fun x => 1 < Qabs x) [3; -(3 # 2)]
  end.
Proof.
  split; [reflexivity|].
  exact (linear_interpolation_slip_elements [3; -(3 # 2)] 1 eq_refl).
Defined.

(** C1, counterexample: at or below the threshold the code leaves 1 where
    the claim puts the ramp (2 at slip 0), and above the threshold it
    stores the ramp (0 at three times the threshold) where the claim
    puts 1. *)
Lemma linear_interpolation_slip_not_spec_factor :
  linear_interpolation_slip [0] 1 = Ok [1] /\ ~ 1 == spec_factor 1 0 /\
  linear_interpolation_slip [3] 1 = Ok [0] /\ ~ 0 == spec_factor 1 3.
Proof. repeat split; vm_compute; congruence. Qed.

Lemma slip_ramp_range (tol a : Q) :
  0 < tol -> tol < a -> 0 <= slip_ramp tol a /\ slip_ramp tol a <= 1.
Proof.
  intros Htol Ha. unfold slip_ramp.
  assert (Hq : 1 < a / tol) by (apply Qlt_shift_div_l; [done | lra]).
  set (y := a / tol - 1). assert (Hy : 0 < y) by (unfold y; lra).
  assert (Hm : 0 <= Qmin 1 y /\ Qmin 1 y <= 1).
  { split; [apply Q.min_glb; lra | apply Q.le_min_l]. }
  rewrite Qabs_pos by lra. lra.
Qed.

Lemma slip_ramp_saturated (tol a : Q) :
  0 < tol -> 2 * tol <= a -> slip_ramp tol a == 0.
Proof.
  intros Htol Ha. unfold slip_ramp.
  assert (Hq : 2 <= a / tol) by (apply Qle_shift_div_l; [done | lra]).
  rewrite Q.min_l by lra. reflexivity.
Qed.

Lemma spec_factor_at_threshold (tol : Q) : 0 < tol -> spec_factor tol tol == 1.
Proof.
  intros Htol. unfold spec_factor.
  assert (Ha : Qabs tol == tol) by (apply Qabs_pos; lra).
  assert (Hle : Qle_bool (Qabs tol) tol = true) by (apply Qle_bool_iff; lra).
  rewrite Hle.
  assert (Hq : Qabs tol / tol == 1) by (rewrite Ha; field; lra).
  rewrite Q.min_r by lra. rewrite Hq. reflexivity.
Qed.

(** C7 (as the code has it): for a strictly positive threshold every
    factor the regularizer returns lies in [0, 1], and it returns at
    least for a single element and whenever every element is above the
    threshold; the factor at the threshold is 1, the value of the
    literal formula of section 4.1 there; the factor at slip 0 is 1. *)
Theorem regularization_factor_range (v : list Q) (tol : Q) :
  0 < tol ->
  match linear_interpolation_slip v tol with
  | Ok out => Forall (fun f => 0 <= f /\ f <= 1) out
  | Raise _ => length v <> 1%nat /\ ~ Forall (fun x => tol < Qabs x) v
  end /\
  (linear_interpolation_slip [tol] tol = Ok [1] /\ 1 == spec_factor tol tol) /\
  linear_interpolation_slip [0] tol = Ok [1].
Proof.
  intros Htol. split; [|split; [split|]].
  - destruct (linear_interpolation_slip v tol) as [out | e] eqn:E.
    + destruct (lis_ok_inv _ _ _ E) as [Hall | (x0 & -> & Hle)].
      * rewrite lis_all_slip in E by done. injection E as <-.
        rewrite !Forall_fmap. eapply Forall_impl; [exact Hall|].
        intros x Hx. by apply slip_ramp_range.
      * rewrite lis_single_stick in E by done. injection E as <-.
        constructor; [lra | constructor].
    + by apply (lis_raise_inv _ _ e).
  - apply lis_single_stick. rewrite Qabs_pos; lra.
  - symmetry. by apply spec_factor_at_threshold.
  - apply lis_single_stick. change (Qabs 0) with 0. lra.
Qed.

Lemma regularization_factor_range_witness :
  0 < 1 /\
  (Forall (fun f => 0 <= f /\ f <= 1) [0; 1 # 2] /\
   (linear_interpolation_slip [1] 1 = Ok [1] /\ 1 == spec_factor 1 1) /\
   linear_interpolation_slip [0] 1 = Ok [1]).
Proof.
  split; [reflexivity|].
  exact (regularization_factor_range [3; -(3 # 2)] 1 eq_refl).
Defined.

(** C7, counterexample: at slip 0 the regularizer returns 1 while the
    literal formula of section 4.1 gives 2. *)
Lemma regularization_factor_at_zero_not_literal :
  linear_interpolation_slip [0] 1 = Ok [1] /\ spec_factor 1 0 == 2 /\
  ~ 1 == spec_factor 1 0.
Proof. repeat split; vm_compute; congruence. Qed.

(** ** Scalar stores, broadcasting and slices *)

Lemma foldl_insert_length {A} (idx : list nat) (a : list A) (v : A) :
  length (foldl (fun acc i => <[i:=v]> acc) a idx) = length a.
Proof.
  revert a. induction idx as [|i idx IH]; intros a; simpl; [done|].
  by rewrite IH, length_insert.
Qed.

Lemma foldl_insert_insert {A} (idx : list nat) (a : list A) (v : A) (j : nat) :
  foldl (fun acc i => <[i:=v]> acc) (<[j:=v]> a) idx
  = <[j:=v]> (foldl (fun acc i => <[i:=v]> acc) a idx).
Proof.
  revert a. induction idx as [|i idx IH]; intros a; simpl; [done|].
  rewrite <- IH. f_equal. rewrite list_insert_insert.
  case_decide; [by subst; rewrite list_insert_insert_eq | done].
Qed.

Lemma foldl_insert_lookup_in {A} (idx : list nat) (a : list A) (v : A) (j : nat) :
  j ∈ idx -> (j < length a)%nat ->
  foldl (fun acc i => <[i:=v]> acc) a idx !! j = Some v.
Proof.
  revert a. induction idx as [|i idx IH]; intros a Hj Hlt; simpl.
  - by apply elem_of_nil in Hj.
  - apply elem_of_cons in Hj as [-> | Hin].
    + rewrite foldl_insert_insert. apply list_lookup_insert_eq.
      by rewrite foldl_insert_length.
    + apply IH; [done | by rewrite length_insert].
Qed.

Lemma foldl_insert_lookup_notin {A} (idx : list nat) (a : list A) (v : A) (j : nat) :
  j ∉ idx -> foldl (fun acc i => <[i:=v]> acc) a idx !! j = a !! j.
Proof.
  revert a. induction idx as [|i idx IH]; intros a Hj; simpl; [done|].
  apply not_elem_of_cons in Hj as [Hne Hnin].
  rewrite IH by done. by apply list_lookup_insert_ne.
Qed.

Lemma setitem_scalar_Ok {A} (a : list A) (idx : list nat) (v : A) :
  in_bounds a idx = true ->
  setitem_scalar a idx v = Ok (foldl (fun acc i => <[i:=v]> acc) a idx).
Proof. intros H. unfold setitem_scalar. by rewrite H. Qed.

Lemma setitem_scalar_inv {A} (a a' : list A) (idx : list nat) (v : A) :
  setitem_scalar a idx v = Ok a' ->
  length a' = length a /\
  (forall j, j ∈ idx -> a' !! j = Some v) /\
  (forall j, j ∉ idx -> a' !! j = a !! j).
Proof.
  unfold setitem_scalar. destruct (in_bounds a idx) eqn:Hb; [|discriminate].
  intros [= <-]. apply in_bounds_spec in Hb. rewrite Forall_forall in Hb.
  split; [apply foldl_insert_length|]. split.
  - intros j Hj. apply foldl_insert_lookup_in; [done | by apply Hb].
  - intros j Hj. by apply foldl_insert_lookup_notin.
Qed.

Lemma setitem_scalar_Forall {A} (P : A -> Prop) (a a' : list A) (idx : list nat) (v : A) :
  setitem_scalar a idx v = Ok a' -> Forall P a -> P v -> Forall P a'.
Proof.
  intros H Ha Hv. apply setitem_scalar_inv in H as (Hlen & Hin & Hnin).
  apply Forall_lookup. intros j x Hx.
  destruct (decide (j ∈ idx)) as [Hj | Hj].
  - rewrite Hin in Hx by done. by injection Hx as <-.
  - rewrite Hnin in Hx by done. rewrite Forall_lookup in Ha. by apply (Ha j).
Qed.

Lemma np_where_in_bounds {A} (a : list A) (mask : list bool) :
  length mask = length a ->
  in_bounds a (as_index_array (np_where mask)) = true /\
  in_bounds a (np_where mask).2 = true.
Proof.
  intros Hlen. pose proof (nonzero_from_in_bounds a mask Hlen) as Hc.
  split; [|done]. apply in_bounds_spec. apply in_bounds_spec in Hc.
  unfold as_index_array, np_where. cbn [fst snd]. apply Forall_app. split; [|done].
  apply Forall_forall. intros i [-> Hm]%elem_of_replicate.
  destruct (nonzero_from 0 mask) as [|c cols] eqn:E; [done|].
  apply Forall_cons in Hc as [Hc _]. lia.
Qed.

Lemma np_where_cols_elem (mask : list bool) (j : nat) :
  j ∈ (np_where mask).2 <-> mask !! j = Some true.
Proof.
  unfold np_where. cbn [snd]. rewrite nonzero_from_elem. split.
  - by intros (p & Hp & ->).
  - intros H. by exists j.
Qed.

Lemma as_index_array_cols (pts : list nat * list nat) (j : nat) :
  j ∈ pts.2 -> j ∈ as_index_array pts.
Proof. intros H. unfold as_index_array. apply elem_of_app. by right. Qed.

Lemma broadcast2_same {A B C} (f : A -> B -> C) (xs : list A) (ys : list B) :
  length xs = length ys -> broadcast2 f xs ys = Ok (zip_with f xs ys).
Proof. intros H. unfold broadcast2. by rewrite H, Nat.eqb_refl. Qed.

Lemma broadcast2_Forall {A B C} (f : A -> B -> C)
    (P : A -> Prop) (R : B -> Prop) (T : C -> Prop)
    (xs : list A) (ys : list B) (zs : list C) :
  (forall x y, P x -> R y -> T (f x y)) ->
  broadcast2 f xs ys = Ok zs -> Forall P xs -> Forall R ys -> Forall T zs.
Proof.
  intros Hf H Hx Hy. unfold broadcast2 in H.
  assert (Hzip : Forall T (zip_with f xs ys)).
  { apply Forall_forall. intros z (i & x & y & -> & Hxi & Hyi)%elem_of_lookup_zip_with.
    rewrite Forall_lookup in Hx. rewrite Forall_lookup in Hy. apply Hf; [by apply (Hx i) | by apply (Hy i)]. }
  assert (Hl : forall x, P x -> Forall T (map (f x) ys)).
  { intros x Hx'. apply Forall_fmap. eapply Forall_impl; [exact Hy|].
    intros y Hy'. by apply Hf. }
  assert (Hr : forall y, R y -> Forall T (map (fun x => f x y) xs)).
  { intros y Hy'. apply Forall_fmap. eapply Forall_impl; [exact Hx|].
    intros x Hx'. by apply Hf. }
  destruct (Nat.eqb (length xs) (length ys)); [by injection H as <-|].
  destruct xs as [|x [|x' xs]].
  - destruct ys as [|y [|y' ys]]; try discriminate.
    by injection H as <-.
  - injection H as <-. apply Hl. by apply Forall_cons in Hx as [Hx _].
  - destruct ys as [|y [|y' ys]]; try discriminate.
    injection H as <-. apply (Hr y). by apply Forall_cons in Hy as [Hy _].
Qed.

Lemma broadcast_to_same {A} (value : list A) (m : nat) :
  length value = m -> broadcast_to value m = Ok value.
Proof. intros H. unfold broadcast_to. by rewrite H, Nat.eqb_refl. Qed.

Lemma length_init_slice {A} (a : list A) : length (init_slice a) = pred (length a).
Proof. unfold init_slice. rewrite length_take. lia. Qed.

Lemma length_tail_slice {A} (a : list A) : length (tail_slice a) = pred (length a).
Proof. unfold tail_slice. rewrite length_drop. lia. Qed.

Lemma length_node_average (a : list vec3) : length (node_average a) = pred (length a).
Proof.
  unfold node_average. rewrite length_map, length_zip_with.
  rewrite length_init_slice, length_tail_slice. lia.
Qed.

(** ** Vector algebra up to numeric equality *)

Ltac vec_crush :=
  unfold veq, vzero, vadd, vsub, vscale, vneg, vdot, half in *;
  cbn [vx vy vz] in *;
  repeat match goal with
         | H : _ /\ _ |- _ => destruct H
         end;
  repeat split; try lra.

#[global] Instance veq_equiv : Equivalence veq.
Proof.
  split.
  - intros a. vec_crush.
  - intros a b H. vec_crush.
  - intros a b c H1 H2. vec_crush.
Qed.

#[global] Instance vadd_proper : Proper (veq ==> veq ==> veq) vadd.
Proof. intros a a' Ha b b' Hb. vec_crush. Qed.

Lemma vadd_zero_r (a : vec3) : vadd a vzero =v= a.
Proof. vec_crush. Qed.

Lemma vadd_zero_l (a : vec3) : vadd vzero a =v= a.
Proof. vec_crush. Qed.

Lemma vadd_halves (a : vec3) : vadd (vscale half a) (vscale half a) =v= a.
Proof. vec_crush. Qed.

Lemma vneg_vzero : vneg vzero = vzero.
Proof. reflexivity. Qed.

Lemma along_vzero (n : vec3) : along n vzero.
Proof. exists 0. vec_crush. Qed.

Lemma along_vscale_n (n : vec3) (s : Q) : along n (vscale s n).
Proof. by exists s. Qed.

Lemma along_vneg (n c : vec3) : along n c -> along n (vneg c).
Proof. intros [s Hs]. exists (- s). vec_crush; ring_simplify; lra. Qed.

Lemma along_vscale (n c : vec3) (q : Q) : along n c -> along n (vscale q c).
Proof.
  intros [s Hs]. exists (q * s).
  unfold veq, vscale in *. cbn [vx vy vz] in *. destruct Hs as (Hx & Hy & Hz).
  rewrite Hx, Hy, Hz. repeat split; ring.
Qed.

Lemma along_vadd (n c d : vec3) : along n c -> along n d -> along n (vadd c d).
Proof.
  intros [s Hs] [t Ht]. exists (s + t).
  unfold veq, vscale, vadd in *. cbn [vx vy vz] in *.
  destruct Hs as (Hx & Hy & Hz), Ht as (Hx' & Hy' & Hz').
  rewrite Hx, Hy, Hz, Hx', Hy', Hz'. repeat split; ring.
Qed.

Lemma Qsquare_nonneg (x : Q) : 0 <= x * x.
Proof. nra. Qed.

Lemma vdot_pushback_nonneg (n : vec3) (f : Q) :
  f <= 0 -> 0 <= vdot n (vneg (vscale f n)).
Proof.
  intros Hf. unfold vdot, vneg, vscale. cbn [vx vy vz].
  assert (H : vx n * - (f * vx n) + vy n * - (f * vy n) + vz n * - (f * vz n)
              == (- f) * (vx n * vx n + vy n * vy n + vz n * vz n)) by ring.
  rewrite H. apply Qmult_le_0_compat; [lra|].
  pose proof (Qsquare_nonneg (vx n)). pose proof (Qsquare_nonneg (vy n)).
  pose proof (Qsquare_nonneg (vz n)). lra.
Qed.

Lemma vdot_vzero_r (n : vec3) : vdot n vzero == 0.
Proof. unfold vdot, vzero. cbn [vx vy vz]. ring. Qed.

(** ** Normal-contact resolution: the intermediate arrays *)

Lemma well_shaped_lengths (rod : Rod) :
  well_shaped rod = true ->
  length (velocity rod) = length (position rod) /\
  length (internal_forces rod) = length (position rod) /\
  length (external_forces rod) = length (position rod) /\
  length (r rod) = pred (length (position rod)) /\
  length (tangents rod) = pred (length (position rod)).
Proof.
  unfold well_shaped. rewrite !andb_true_iff, !Nat.eqb_eq. tauto.
Qed.

Lemma plane_response_inv (self : InteractionPlane) (rod : Rod) (nfp total : list vec3) :
  plane_response self rod = Ok (nfp, total) ->
  exists fnd fn el, response_trace self rod fnd fn el nfp total.
Proof.
  unfold plane_response. intros H.
  apply bind_Ok_inv in H as (fnd & Hfnd & H).
  apply bind_Ok_inv in H as (fn & Hfn & H).
  apply bind_Ok_inv in H as (el & Hel & H).
  apply bind_Ok_inv in H as (nfp' & Hnfp & H).
  apply bind_Ok_inv in H as (total' & Htotal & H).
  injection H as -> ->. exists fnd, fn, el. by constructor.
Qed.

Lemma plane_response_trace (self : InteractionPlane) (rod : Rod)
    (fnd : list Q) (fn el nfp total : list vec3) :
  response_trace self rod fnd fn el nfp total ->
  plane_response self rod = Ok (nfp, total).
Proof.
  intros [H1 H2 H3 H4 H5]. unfold plane_response.
  rewrite H1, bind_Ok, H2, bind_Ok, H3, bind_Ok, H4, bind_Ok, H5, bind_Ok.
  reflexivity.
Qed.

Lemma length_distance_from_plane (self : InteractionPlane) (rod : Rod) :
  length (distance_from_plane self rod) = pred (length (position rod)).
Proof.
  unfold distance_from_plane, matvec. by rewrite !length_map, length_node_average.
Qed.

Lemma length_damping_force (self : InteractionPlane) (rod : Rod) :
  length (damping_force self rod) = pred (length (velocity rod)).
Proof.
  unfold damping_force, outer, matvec. by rewrite !length_map, length_node_average.
Qed.

Lemma well_shaped_trace (self : InteractionPlane) (rod : Rod) :
  well_shaped rod = true ->
  exists fnd fn el nfp,
    response_trace self rod fnd fn el nfp
      (zip_with vadd (zip_with vadd nfp el) (damping_force self rod)) /\
    length nfp = pred (length (position rod)) /\
    length el = pred (length (position rod)).
Proof.
  intros (Hv & Hi & He & Hr & Ht)%well_shaped_lengths.
  pose (N := pred (length (position rod))).
  (* line 34-36 *)
  assert (Hfnd : exists fnd, forces_normal_direction self rod = Ok fnd /\ length fnd = N).
  { unfold forces_normal_direction.
    rewrite broadcast2_same, bind_Ok by congruence.
    eexists. split; [reflexivity|]. unfold matvec.
    rewrite length_map, length_node_average, length_zip_with. unfold N. lia. }
  destruct Hfnd as (fnd & Hfnd & Lfnd).
  (* lines 37-38 *)
  assert (Hfn : exists fn, forces_normal self fnd = Ok fn /\ length fn = N).
  { unfold forces_normal. eexists. split.
    - apply setitem_scalar_Ok. apply np_where_in_bounds.
      unfold outer. by rewrite !length_map.
    - rewrite foldl_insert_length. unfold outer. by rewrite length_map. }
  destruct Hfn as (fn & Hfn & Lfn).
  (* lines 39-42 *)
  assert (Hel : exists el, elastic_force self rod = Ok el /\ length el = N).
  { unfold elastic_force.
    rewrite broadcast2_same, bind_Ok by (rewrite length_distance_from_plane; lia).
    eexists. split; [reflexivity|]. unfold outer.
    rewrite !length_map, length_zip_with, length_distance_from_plane. unfold N. lia. }
  destruct Hel as (el & Hel & Lel).
  (* lines 46-47 *)
  assert (Hnfp : exists nfp, normal_force_plane self rod fn = Ok nfp /\ length nfp = N).
  { unfold normal_force_plane, no_contact_pts. eexists. split.
    - apply setitem_scalar_Ok. apply np_where_in_bounds.
      rewrite !length_map, length_distance_from_plane. by rewrite Lfn.
    - by rewrite foldl_insert_length, length_map. }
  destruct Hnfp as (nfp & Hnfp & Lnfp).
  exists fnd, fn, el, nfp. split; [|done].
  constructor; try done.
  unfold total_force_plane.
  rewrite broadcast2_same, bind_Ok by congruence.
  apply broadcast2_same.
  rewrite length_zip_with, length_damping_force, Hv. unfold N in *. lia.
Qed.

(** ** Scattering the element forces onto the nodes (lines 49-50) *)

Lemma elem_share_Some (total : list vec3) (j : nat) (t : vec3) :
  total !! j = Some t -> elem_share total j = vscale half t.
Proof. intros H. unfold elem_share. by rewrite H. Qed.

Lemma elem_share_None (total : list vec3) (j : nat) :
  (length total <= j)%nat -> elem_share total j = vzero.
Proof. intros H. unfold elem_share. by rewrite lookup_ge_None_2. Qed.

Lemma iadd_init_slice_lookup (ext total : list vec3) :
  length total = pred (length ext) ->
  exists ext1,
    iadd_init_slice ext (map (vscale half) total) = Ok ext1 /\
    length ext1 = length ext /\
    forall i a, ext !! i = Some a ->
      exists a1, ext1 !! i = Some a1 /\ a1 =v= vadd a (elem_share total i).
Proof.
  intros Hlen. unfold iadd_init_slice, iadd.
  rewrite broadcast_to_same, !bind_Ok
    by (by rewrite length_map, length_init_slice).
  eexists. split; [reflexivity|].
  assert (Hz : length (zip_with vadd (init_slice ext) (map (vscale half) total))
               = pred (length ext)).
  { rewrite length_zip_with, length_init_slice, length_map. lia. }
  split.
  { rewrite length_app, Hz, length_drop. lia. }
  intros i a Ha. pose proof (lookup_lt_Some _ _ _ Ha) as Hi.
  destruct (decide (i < pred (length ext))%nat) as [Hlt | Hge].
  - destruct (lookup_lt_is_Some_2 total i) as [t Ht]; [lia|].
    exists (vadd a (vscale half t)). split.
    + rewrite lookup_app_l by lia. apply lookup_zip_with_Some.
      exists a, (vscale half t). split; [done|]. split.
      * unfold init_slice. by rewrite lookup_take_lt.
      * by rewrite list_lookup_fmap, Ht.
    + by rewrite (elem_share_Some _ _ _ Ht).
  - exists a. split.
    + rewrite lookup_app_r by lia. rewrite lookup_drop, Hz. rewrite <- Ha. f_equal. lia.
    + rewrite elem_share_None by lia. symmetry. apply vadd_zero_r.
Qed.

Lemma iadd_tail_slice_lookup (ext total : list vec3) :
  length total = pred (length ext) ->
  exists ext2,
    iadd_tail_slice ext (map (vscale half) total) = Ok ext2 /\
    length ext2 = length ext /\
    forall i a, ext !! i = Some a ->
      exists a2, ext2 !! i = Some a2 /\ a2 =v= vadd a (prev_share total i).
Proof.
  intros Hlen. unfold iadd_tail_slice, iadd.
  rewrite broadcast_to_same, !bind_Ok
    by (by rewrite length_map, length_tail_slice).
  eexists. split; [reflexivity|].
  split.
  { rewrite length_app, length_take, length_zip_with, length_tail_slice, length_map. lia. }
  intros i a Ha. pose proof (lookup_lt_Some _ _ _ Ha) as Hi.
  destruct i as [|p].
  - exists a. split.
    + rewrite lookup_app_l by (rewrite length_take; lia).
      by rewrite lookup_take_lt by lia.
    + symmetry. apply vadd_zero_r.
  - destruct (lookup_lt_is_Some_2 total p) as [t Ht]; [lia|].
    exists (vadd a (vscale half t)). split.
    + rewrite lookup_app_r by (rewrite length_take; lia).
      rewrite length_take. replace (S p - 1 `min` length ext)%nat with p by lia.
      apply lookup_zip_with_Some.
      exists a, (vscale half t). split; [done|]. split.
      * unfold tail_slice. by rewrite lookup_drop.
      * by rewrite list_lookup_fmap, Ht.
    + cbn [prev_share]. by rewrite (elem_share_Some _ _ _ Ht).
Qed.

Lemma scatter_lookup (ext total : list vec3) :
  length total = pred (length ext) ->
  exists ext2,
    (iadd_init_slice ext (map (vscale half) total)
       ≫= fun ext1 => iadd_tail_slice ext1 (map (vscale half) total)) = Ok ext2 /\
    length ext2 = length ext /\
    forall i a, ext !! i = Some a ->
      exists a', ext2 !! i = Some a' /\
        a' =v= vadd (vadd a (elem_share total i)) (prev_share total i).
Proof.
  intros Hlen.
  destruct (iadd_init_slice_lookup ext total Hlen) as (ext1 & H1 & L1 & Hl1).
  destruct (iadd_tail_slice_lookup ext1 total) as (ext2 & H2 & L2 & Hl2); [by rewrite L1|].
  exists ext2. rewrite H1, bind_Ok. split; [done|]. split; [congruence|].
  intros i a Ha.
  destruct (Hl1 i a Ha) as (a1 & Ha1 & E1).
  destruct (Hl2 i a1 Ha1) as (a2 & Ha2 & E2).
  exists a2. split; [done|]. by rewrite E2, E1.
Qed.

(** A well-shaped rod goes through [apply_normal_force] without an
    exception; the arrays of the run and the rod it leaves. *)
Lemma apply_normal_force_well_shaped (self : InteractionPlane) (rod : Rod) :
  well_shaped rod = true ->
  exists fnd fn el nfp total ext2,
    response_trace self rod fnd fn el nfp total /\
    total = zip_with vadd (zip_with vadd nfp el) (damping_force self rod) /\
    length nfp = pred (length (position rod)) /\
    length el = pred (length (position rod)) /\
    length total = pred (length (position rod)) /\
    apply_normal_force self rod = Ok (nfp, set_external_forces rod ext2) /\
    length ext2 = length (external_forces rod) /\
    forall i a, external_forces rod !! i = Some a ->
      exists a', ext2 !! i = Some a' /\
        a' =v= vadd (vadd a (elem_share total i)) (prev_share total i).
Proof.
  intros Hws. destruct (well_shaped_trace self rod Hws) as (fnd & fn & el & nfp & Htr & Ln & Le).
  pose proof (well_shaped_lengths rod Hws) as (Hv & Hi & He & Hr & Ht).
  set (total := zip_with vadd (zip_with vadd nfp el) (damping_force self rod)) in *.
  assert (Lt : length total = pred (length (position rod))).
  { unfold total. rewrite !length_zip_with, length_damping_force. lia. }
  destruct (scatter_lookup (external_forces rod) total) as (ext2 & Hs & L2 & Hl);
    [congruence|].
  exists fnd, fn, el, nfp, total, ext2.
  repeat (split; [done|]). split; [|done].
  unfold apply_normal_force. rewrite (plane_response_trace _ _ _ _ _ _ _ Htr), bind_Ok.
  cbn [fst snd].
  destruct (iadd_init_slice (external_forces rod) (map (vscale half) total)) as [ext1|e];
    [|discriminate].
  rewrite bind_Ok in Hs. rewrite bind_Ok, Hs. reflexivity.
Qed.

Lemma apply_normal_force_raise (self : InteractionPlane) (rod : Rod) (e : PyExc) :
  apply_normal_force self rod = Raise e -> well_shaped rod = false.
Proof.
  intros H. destruct (well_shaped rod) eqn:Hws; [|done].
  destruct (apply_normal_force_well_shaped self rod Hws)
    as (? & ? & ? & ? & ? & ? & _ & _ & _ & _ & _ & Hok & _).
  congruence.
Qed.

(** ** The columns of the projected force *)

Lemma forces_normal_cols (self : InteractionPlane) (fnd : list Q) (fn : list vec3) :
  forces_normal self fnd = Ok fn ->
  (forall j f, fnd !! j = Some f -> 0 < f -> fn !! j = Some vzero) /\
  (forall j c, fn !! j = Some c ->
     c = vzero \/ exists f, fnd !! j = Some f /\ f <= 0 /\ c = vscale f (normal_plane self)).
Proof.
  unfold forces_normal. intros H.
  apply setitem_scalar_inv in H as (Hlen & Hin & Hnin).
  set (pts := np_where (map (fun f => Qgtb f 0) fnd)) in *.
  split.
  - intros j f Hf Hpos. apply Hin, as_index_array_cols, np_where_cols_elem.
    rewrite list_lookup_fmap, Hf. cbn. f_equal. by apply Qgtb_true.
  - intros j c Hc. destruct (decide (j ∈ as_index_array pts)) as [Hj | Hj].
    + left. rewrite Hin in Hc by done. by injection Hc.
    + right. rewrite Hnin in Hc by done. unfold outer in Hc.
      rewrite list_lookup_fmap in Hc.
      destruct (fnd !! j) as [f|] eqn:Hf; [|discriminate]. injection Hc as <-.
      exists f. split; [done|]. split; [|done].
      apply Qgtb_false. destruct (Qgtb f 0) eqn:E; [|done].
      exfalso. apply Hj, as_index_array_cols, np_where_cols_elem.
      by rewrite list_lookup_fmap, Hf; cbn; rewrite E.
Qed.

Lemma normal_force_plane_cols (self : InteractionPlane) (rod : Rod) (fn nfp : list vec3) :
  normal_force_plane self rod fn = Ok nfp ->
  (forall j d, distance_from_plane self rod !! j = Some d -> surface_tol self < d ->
     nfp !! j = Some vzero) /\
  (forall j c, nfp !! j = Some c ->
     c = vzero \/ exists c0, fn !! j = Some c0 /\ c = vneg c0) /\
  (forall j, fn !! j = Some vzero -> nfp !! j = Some vzero).
Proof.
  unfold normal_force_plane, no_contact_pts. intros H.
  apply setitem_scalar_inv in H as (Hlen & Hin & Hnin).
  set (pts := np_where _) in *.
  assert (Hcols : forall j c, nfp !! j = Some c ->
            c = vzero \/ exists c0, fn !! j = Some c0 /\ c = vneg c0).
  { intros j c Hc. destruct (decide (j ∈ pts.2)) as [Hj | Hj].
    - left. rewrite Hin in Hc by done. by injection Hc.
    - right. rewrite Hnin in Hc by done. rewrite list_lookup_fmap in Hc.
      destruct (fn !! j) as [c0|]; [|discriminate]. injection Hc as <-. by exists c0. }
  split; [|split; [done|]].
  - intros j d Hd Hgt. apply Hin, np_where_cols_elem.
    rewrite list_lookup_fmap, Hd. cbn. f_equal. by apply Qgtb_true.
  - intros j Hj. destruct (decide (j ∈ pts.2)) as [Hin' | Hnin'].
    + by apply Hin.
    + rewrite Hnin by done. by rewrite list_lookup_fmap, Hj.
Qed.

Lemma total_force_plane_lookup (nfp el dm : list vec3) (j : nat) (t : vec3) :
  zip_with vadd (zip_with vadd nfp el) dm !! j = Some t ->
  exists c e d, nfp !! j = Some c /\ el !! j = Some e /\ dm !! j = Some d /\
                t = vadd (vadd c e) d.
Proof.
  intros (s & d & -> & (c & e & -> & Hc & He)%lookup_zip_with_Some & Hd)%lookup_zip_with_Some.
  by exists c, e, d.
Qed.

(** ** Claims on [apply_normal_force] *)

(** C4 (as the code has it): for a non-contact element (signed midpoint
    distance above [surface_tol]) the vector [apply_normal_force] returns
    is exactly zero; the force it splits onto the two bounding nodes is
    the elastic plus the damping term of that element, half to each
    node. *)
Theorem no_contact_returned_force_zero (self : InteractionPlane) (rod : Rod) :
  well_shaped rod = true ->
  exists nfp total el rod',
    plane_response self rod = Ok (nfp, total) /\
    apply_normal_force self rod = Ok (nfp, rod') /\
    elastic_force self rod = Ok el /\
    (forall i a, external_forces rod !! i = Some a ->
       exists a', external_forces rod' !! i = Some a' /\
         a' =v= vadd (vadd a (elem_share total i)) (prev_share total i)) /\
    forall j d, distance_from_plane self rod !! j = Some d -> surface_tol self < d ->
      nfp !! j = Some vzero /\
      exists e dm, el !! j = Some e /\ damping_force self rod !! j = Some dm /\
        total !! j = Some (vadd (vadd vzero e) dm) /\
        elem_share total j =v= vscale half (vadd e dm).
Proof.
  intros Hws.
  destruct (apply_normal_force_well_shaped self rod Hws)
    as (fnd & fn & el & nfp & total & ext2 & Htr & Ht & Ln & Le & Lt & Hok & L2 & Hl).
  exists nfp, total, el, (set_external_forces rod ext2).
  split; [by apply (plane_response_trace _ _ _ _ _ _ _ Htr)|].
  split; [done|]. split; [by destruct Htr|]. split; [done|].
  intros j d Hd Hgt.
  destruct (normal_force_plane_cols _ _ _ _ (trace_nfp _ _ _ _ _ _ _ Htr)) as (Hz & _ & _).
  pose proof (Hz j d Hd Hgt) as Hj. split; [done|].
  assert (Hlt : (j < pred (length (position rod)))%nat)
    by (rewrite <- Ln; by eapply lookup_lt_Some).
  destruct (lookup_lt_is_Some_2 total j) as [t Htj]; [lia|].
  pose proof Htj as Htj'. rewrite Ht in Htj'.
  apply total_force_plane_lookup in Htj' as (c & e & dm & Hc & He & Hdm & ->).
  rewrite Hj in Hc. injection Hc as <-.
  exists e, dm. repeat (split; [done|]).
  rewrite (elem_share_Some _ _ _ Htj). vec_crush.
Qed.

Lemma no_contact_returned_force_zero_witness :
  well_shaped falling_rod = true /\
  exists nfp total el rod',
    plane_response ground falling_rod = Ok (nfp, total) /\
    apply_normal_force ground falling_rod = Ok (nfp, rod') /\
    elastic_force ground falling_rod = Ok el /\
    (forall i a, external_forces falling_rod !! i = Some a ->
       exists a', external_forces rod' !! i = Some a' /\
         a' =v= vadd (vadd a (elem_share total i)) (prev_share total i)) /\
    forall j d, distance_from_plane ground falling_rod !! j = Some d ->
      surface_tol ground < d ->
      nfp !! j = Some vzero /\
      exists e dm, el !! j = Some e /\ damping_force ground falling_rod !! j = Some dm /\
        total !! j = Some (vadd (vadd vzero e) dm) /\
        elem_share total j =v= vscale half (vadd e dm).
Proof.
  split; [reflexivity|].
  apply (no_contact_returned_force_zero ground falling_rod). reflexivity.
Defined.

(** C4, counterexample: an element at height 1 above the plane, clear of
    it even by its radius, is a non-contact element, yet the damping term
    puts a non-zero force on both of its nodes. *)
Lemma no_contact_accumulated_force_nonzero :
  exists d nfp rod' a b,
    distance_from_plane ground falling_rod = [d] /\ d == 1 /\ surface_tol ground < d /\
    apply_normal_force ground falling_rod = Ok (nfp, rod') /\
    nfp = [vzero] /\
    external_forces falling_rod = [vzero; vzero] /\
    external_forces rod' = [a; b] /\
    ~ a =v= vzero /\ ~ b =v= vzero.
Proof.
  do 5 eexists. split; [vm_compute; reflexivity|]. split; [reflexivity|].
  split; [reflexivity|].
  split; [vm_compute; reflexivity|]. split; [reflexivity|]. split; [reflexivity|].
  split; [reflexivity|]. split; intros (_ & H & _); vm_compute in H; discriminate.
Qed.

(** C6: where the element-averaged net force has a strictly positive
    component along the plane normal the projected force enters the
    contact reaction as exactly zero, and every vector
    [apply_normal_force] returns has a non-negative component along the
    plane normal; a well-shaped rod never makes it raise. *)
Theorem normal_force_one_sided (self : InteractionPlane) (rod : Rod) :
  match apply_normal_force self rod with
  | Ok (nfp, _) =>
      (forall fnd j f, forces_normal_direction self rod = Ok fnd ->
         fnd !! j = Some f -> 0 < f -> nfp !! j = Some vzero) /\
      Forall (fun c => 0 <= vdot (normal_plane self) c) nfp
  | Raise _ => well_shaped rod = false
  end.
Proof.
  destruct (apply_normal_force self rod) as [[nfp rod']|e] eqn:E;
    [|by apply (apply_normal_force_raise self rod e)].
  unfold apply_normal_force in E.
  apply bind_Ok_inv in E as ([nfp0 total] & Hresp & E).
  apply bind_Ok_inv in E as (ext1 & _ & E).
  apply bind_Ok_inv in E as (ext2 & _ & E).
  injection E as <- _. cbn [fst].
  apply plane_response_inv in Hresp as (fnd & fn & el & [Hfnd Hfn Hel Hnfp Htot]).
  destruct (forces_normal_cols _ _ _ Hfn) as (Hpos & Hfncols).
  destruct (normal_force_plane_cols _ _ _ _ Hnfp) as (_ & Hcols & Hkeep).
  split.
  - intros fnd' j f Hfnd' Hj Hf. rewrite Hfnd in Hfnd'. injection Hfnd' as <-.
    apply Hkeep. by apply (Hpos j f).
  - apply Forall_lookup. intros j c Hc.
    destruct (Hcols j c Hc) as [-> | (c0 & Hc0 & ->)].
    + rewrite vdot_vzero_r. lra.
    + destruct (Hfncols j c0 Hc0) as [-> | (f & _ & Hf & ->)].
      * rewrite vneg_vzero, vdot_vzero_r. lra.
      * by apply vdot_pushback_nonneg.
Qed.

(** C8 (as the code has it): [apply_normal_force] adds exactly half of an
    element's total contact force to each of the element's two bounding
    nodes, and the two halves sum to that total; the total is the
    returned vector plus the elastic and the damping term, and the value
    returned is the projected one-sided term alone.  Nothing but the
    external-force accumulator of the rod changes. *)
Theorem apply_normal_force_splits_total (self : InteractionPlane) (rod : Rod) :
  well_shaped rod = true ->
  exists nfp total el rod',
    plane_response self rod = Ok (nfp, total) /\
    apply_normal_force self rod = Ok (nfp, rod') /\
    elastic_force self rod = Ok el /\
    rod' = set_external_forces rod (external_forces rod') /\
    (forall i a, external_forces rod !! i = Some a ->
       exists a', external_forces rod' !! i = Some a' /\
         a' =v= vadd (vadd a (elem_share total i)) (prev_share total i)) /\
    forall j t, total !! j = Some t ->
      elem_share total j = vscale half t /\
      prev_share total (S j) = vscale half t /\
      vadd (vscale half t) (vscale half t) =v= t /\
      exists c e d, nfp !! j = Some c /\ el !! j = Some e /\
        damping_force self rod !! j = Some d /\ t = vadd (vadd c e) d.
Proof.
  intros Hws.
  destruct (apply_normal_force_well_shaped self rod Hws)
    as (fnd & fn & el & nfp & total & ext2 & Htr & Ht & Ln & Le & Lt & Hok & L2 & Hl).
  exists nfp, total, el, (set_external_forces rod ext2).
  split; [by apply (plane_response_trace _ _ _ _ _ _ _ Htr)|].
  split; [done|]. split; [by destruct Htr|]. split; [done|]. split; [done|].
  intros j t Hj. pose proof (elem_share_Some _ _ _ Hj) as Hs.
  split; [done|]. split; [done|]. split; [apply vadd_halves|].
  rewrite Ht in Hj. by apply total_force_plane_lookup.
Qed.

Lemma apply_normal_force_splits_total_witness :
  well_shaped hovering_rod = true /\
  exists nfp total el rod',
    plane_response ground hovering_rod = Ok (nfp, total) /\
    apply_normal_force ground hovering_rod = Ok (nfp, rod') /\
    elastic_force ground hovering_rod = Ok el /\
    rod' = set_external_forces hovering_rod (external_forces rod') /\
    (forall i a, external_forces hovering_rod !! i = Some a ->
       exists a', external_forces rod' !! i = Some a' /\
         a' =v= vadd (vadd a (elem_share total i)) (prev_share total i)) /\
    forall j t, total !! j = Some t ->
      elem_share total j = vscale half t /\
      prev_share total (S j) = vscale half t /\
      vadd (vscale half t) (vscale half t) =v= t /\
      exists c e d, nfp !! j = Some c /\ el !! j = Some e /\
        damping_force ground hovering_rod !! j = Some d /\ t = vadd (vadd c e) d.
Proof.
  split; [reflexivity|].
  apply (apply_normal_force_splits_total ground hovering_rod). reflexivity.
Defined.

(** C8, counterexample: for an element whose surface reaches below the
    plane while its axis stays above the tolerance, the returned vector
    is zero while the two nodes together receive the elastic force
    [(0, 1, 0)]: the value returned is not the vector that was split. *)
Lemma returned_force_not_the_split_force :
  exists nfp rod' a b,
    apply_normal_force ground hovering_rod = Ok (nfp, rod') /\
    nfp = [vzero] /\
    external_forces hovering_rod = [vzero; vzero] /\
    external_forces rod' = [a; b] /\
    vadd a b =v= V3 0 1 0 /\ ~ vadd a b =v= vzero.
Proof.
  do 4 eexists. split; [vm_compute; reflexivity|]. split; [reflexivity|].
  split; [reflexivity|]. split; [reflexivity|]. split.
  - repeat split; vm_compute; reflexivity.
  - intros (_ & H & _). vm_compute in H. discriminate.
Qed.

(** ** What the in-place additions do to a node *)

Lemma along_veq (n c c' : vec3) : c =v= c' -> along n c -> along n c'.
Proof. intros Hc [s Hs]. exists s. by rewrite <- Hc. Qed.

Lemma broadcast_to_Forall {A} (P : A -> Prop) (value v : list A) (m : nat) :
  broadcast_to value m = Ok v -> Forall P value -> length v = m /\ Forall P v.
Proof.
  unfold broadcast_to. destruct (Nat.eqb_spec (length value) m) as [He | Hne].
  - by intros [= <-].
  - destruct value as [|x [|y value]]; try discriminate.
    intros [= <-] [Hx _]%Forall_cons. split; [apply length_replicate|].
    by apply Forall_replicate.
Qed.

Lemma iadd_along (n : vec3) (target value s : list vec3) :
  iadd target value = Ok s -> Forall (along n) value ->
  length s = length target /\
  forall i a, target !! i = Some a ->
    exists a', s !! i = Some a' /\ along n (vsub a' a).
Proof.
  unfold iadd. intros (v & Hv & [= <-])%bind_Ok_inv Hval.
  destruct (broadcast_to_Forall _ _ _ _ Hv Hval) as [Lv Av].
  split; [rewrite length_zip_with; lia|].
  intros i a Ha.
  destruct (lookup_lt_is_Some_2 v i) as [c Hc];
    [rewrite Lv; by eapply lookup_lt_Some|].
  exists (vadd a c). split.
  - apply lookup_zip_with_Some. by exists a, c.
  - rewrite Forall_lookup in Av. apply (along_veq n c); [vec_crush | by apply (Av i)].
Qed.

Lemma along_unchanged (n a : vec3) : along n (vsub a a).
Proof. apply (along_veq n vzero); [vec_crush | apply along_vzero]. Qed.

Lemma iadd_init_slice_along (n : vec3) (a value a' : list vec3) :
  iadd_init_slice a value = Ok a' -> Forall (along n) value ->
  length a' = length a /\
  forall i x, a !! i = Some x ->
    exists x', a' !! i = Some x' /\ along n (vsub x' x).
Proof.
  unfold iadd_init_slice. intros (s & Hs & [= <-])%bind_Ok_inv Hval.
  destruct (iadd_along n _ _ _ Hs Hval) as [Ls Hl].
  rewrite length_init_slice in Ls.
  split; [rewrite length_app, Ls, length_drop; lia|].
  intros i x Hx. pose proof (lookup_lt_Some _ _ _ Hx) as Hi.
  destruct (decide (i < pred (length a))%nat) as [Hlt | Hge].
  - rewrite lookup_app_l by lia. apply Hl. unfold init_slice.
    by rewrite lookup_take_lt.
  - exists x. split; [|apply along_unchanged].
    rewrite lookup_app_r by lia. rewrite lookup_drop, Ls, <- Hx. f_equal. lia.
Qed.

Lemma iadd_tail_slice_along (n : vec3) (a value a' : list vec3) :
  iadd_tail_slice a value = Ok a' -> Forall (along n) value ->
  length a' = length a /\
  forall i x, a !! i = Some x ->
    exists x', a' !! i = Some x' /\ along n (vsub x' x).
Proof.
  unfold iadd_tail_slice. intros (s & Hs & [= <-])%bind_Ok_inv Hval.
  destruct (iadd_along n _ _ _ Hs Hval) as [Ls Hl].
  rewrite length_tail_slice in Ls.
  split; [rewrite length_app, Ls, length_take; lia|].
  intros i x Hx. pose proof (lookup_lt_Some _ _ _ Hx) as Hi.
  destruct i as [|p].
  - exists x. split; [|apply along_unchanged].
    rewrite lookup_app_l by (rewrite length_take; lia).
    by rewrite lookup_take_lt by lia.
  - rewrite lookup_app_r by (rewrite length_take; lia).
    rewrite length_take. replace (S p - 1 `min` length a)%nat with p by lia.
    apply Hl. unfold tail_slice. by rewrite lookup_drop.
Qed.

Lemma along_two_steps (n x x1 x2 : vec3) :
  along n (vsub x1 x) -> along n (vsub x2 x1) -> along n (vsub x2 x).
Proof.
  intros H1 H2. apply (along_veq n (vadd (vsub x2 x1) (vsub x1 x))); [vec_crush|].
  by apply along_vadd.
Qed.

(** C10: every per-element vector [apply_normal_force] computes and
    accumulates (the projected one-sided term it returns, the elastic
    term, the damping term, their sum and the halves added to the nodes)
    is a scalar multiple of the plane normal, and the external force of
    every node changes by a scalar multiple of the plane normal: no
    component tangent to the plane is added.  A well-shaped rod never
    makes the routine raise. *)
Theorem contact_forces_along_normal (self : InteractionPlane) (rod : Rod) :
  match apply_normal_force self rod with
  | Ok (nfp, rod') =>
      (exists el total,
        elastic_force self rod = Ok el /\
        plane_response self rod = Ok (nfp, total) /\
        Forall (along (normal_plane self)) nfp /\
        Forall (along (normal_plane self)) el /\
        Forall (along (normal_plane self)) (damping_force self rod) /\
        Forall (along (normal_plane self)) total /\
        Forall (along (normal_plane self)) (map (vscale half) total)) /\
      length (external_forces rod') = length (external_forces rod) /\
      forall i a, external_forces rod !! i = Some a ->
        exists a', external_forces rod' !! i = Some a' /\
                   along (normal_plane self) (vsub a' a)
  | Raise _ => well_shaped rod = false
  end.
Proof.
  destruct (apply_normal_force self rod) as [[nfp rod']|e] eqn:E;
    [|by apply (apply_normal_force_raise self rod e)].
  unfold apply_normal_force in E.
  apply bind_Ok_inv in E as ([nfp0 total] & Hresp & E).
  apply bind_Ok_inv in E as (ext1 & Hext1 & E).
  apply bind_Ok_inv in E as (ext2 & Hext2 & E).
  injection E as <- <-. cbn [fst snd] in *.
  pose proof Hresp as Hresp'.
  apply plane_response_inv in Hresp' as (fnd & fn & el & [Hfnd Hfn Hel Hnfp Htot]).
  set (n := normal_plane self).
  assert (Houter : forall s, Forall (along n) (outer n s)).
  { intros s. unfold outer. apply Forall_fmap, Forall_true. intros c. apply along_vscale_n. }
  assert (Afn : Forall (along n) fn).
  { unfold forces_normal in Hfn.
    eapply setitem_scalar_Forall; [exact Hfn | apply Houter | apply along_vzero]. }
  assert (Anfp : Forall (along n) nfp0).
  { unfold normal_force_plane in Hnfp.
    eapply setitem_scalar_Forall; [exact Hnfp | | apply along_vzero].
    apply Forall_fmap. eapply Forall_impl; [exact Afn|]. intros c. apply along_vneg. }
  assert (Ael : Forall (along n) el).
  { unfold elastic_force in Hel. apply bind_Ok_inv in Hel as (d & _ & Hel).
    injection Hel as <-. apply Forall_fmap.
    eapply Forall_impl; [apply Houter|]. intros c. apply along_vscale. }
  assert (Adm : Forall (along n) (damping_force self rod)).
  { unfold damping_force. apply Forall_fmap.
    eapply Forall_impl; [apply Houter|]. intros c. apply along_vscale. }
  assert (Atot : Forall (along n) total).
  { unfold total_force_plane in Htot. apply bind_Ok_inv in Htot as (s & Hs & Htot).
    eapply (broadcast2_Forall vadd (along n) (along n) (along n));
      [apply along_vadd | exact Htot | | exact Adm].
    eapply (broadcast2_Forall vadd (along n) (along n) (along n));
      [apply along_vadd | exact Hs | exact Anfp | exact Ael]. }
  assert (Ahalf : Forall (along n) (map (vscale half) total)).
  { apply Forall_fmap. eapply Forall_impl; [exact Atot|]. intros c. apply along_vscale. }
  destruct (iadd_init_slice_along n _ _ _ Hext1 Ahalf) as [L1 D1].
  destruct (iadd_tail_slice_along n _ _ _ Hext2 Ahalf) as [L2 D2].
  split; [by exists el, total|]. split; [cbn; congruence|].
  intros i a Ha. destruct (D1 i a Ha) as (a1 & Ha1 & A1).
  destruct (D2 i a1 Ha1) as (a2 & Ha2 & A2).
  exists a2. split; [exact Ha2 | by apply (along_two_steps n a a1 a2)].
Qed.

(** ** Construction *)

(** C9: every [InteractionPlane], and so every
    [AnistropicFrictionalPlane] that gets constructed, has the surface
    tolerance 1e-4 whatever the constructor receives; the friction plane
    is constructed whenever both coefficient arrays have three
    entries. *)
Theorem surface_tol_fixed (k nu tol : Q) (origin normal : vec3) (smu kmu : list Q) :
  surface_tol (InteractionPlane_init k nu origin normal) = 1 # 10000 /\
  match AnistropicFrictionalPlane_init k nu origin normal tol smu kmu with
  | Ok p => surface_tol (base p) = 1 # 10000
  | Raise _ => (length smu < 3)%nat \/ (length kmu < 3)%nat
  end.
Proof.
  split; [reflexivity|].
  unfold AnistropicFrictionalPlane_init, getitem.
  destruct smu as [|s0 [|s1 [|s2 smu]]]; cbn; try (left; lia).
  destruct kmu as [|k0 [|k1 [|k2 kmu]]]; cbn; try (right; lia).
  reflexivity.
Qed.

(** ** Kinetic friction *)

(** C3 (code defect): [apply_kinetic_friction] raises [TypeError] for
    every plane and every rod, at the call of line 73 that passes the
    receiver a second time. *)
Theorem apply_kinetic_friction_raises
    (sqrt_fl : Q -> Q) (self : AnistropicFrictionalPlane) (rod : Rod) :
  apply_kinetic_friction sqrt_fl self rod = Raise TypeError.
Proof. reflexivity. Qed.

(** C2 (code defect): for an element moving against its tangent the
    signed dot product is -1, while line 80 puts a square root around the
    product: the value is NaN and so is its sign, which is never -1; on
    arrays of shape (3, N) the [einsum] of that line raises, and the
    routine has raised before it gets there. *)
Theorem axial_slip_velocity_backward (sqrt_fl : Q -> Q) :
  let element_v := node_average (velocity backward_rod) in
  let dots := batch_dot element_v (tangents backward_rod) in
  Forall2 Qeq dots [-(1)] /\
  axial_slip_velocity sqrt_fl dots = [NaN] /\
  map np_sign (axial_slip_velocity sqrt_fl dots) = [NaN] /\
  einsum_ijk_ijk_jk element_v (tangents backward_rod) = Raise ValueError /\
  apply_kinetic_friction sqrt_fl half_forward_plane backward_rod = Raise TypeError.
Proof.
  cbv zeta. split; [|split; [|split; [|split]]]; try reflexivity.
  repeat constructor.
Qed.

(** C5 (code defect): for an element pressed onto the plane with a
    normal reaction [(0, 1, 0)] and sliding against its tangent at
    exactly twice the slip tolerance, under a forward coefficient of 0.5,
    the routine raises [TypeError] and adds no friction force; the
    coefficient lines 80-83 would blend is NaN, not 0.5. *)
Theorem kinetic_friction_at_twice_tol (sqrt_fl : Q -> Q) :
  let element_v := node_average (velocity sliding_rod) in
  let dots := batch_dot element_v (tangents sliding_rod) in
  Forall2 (fun d tol => Qabs d == 2 * tol) dots [slip_velocity_tol half_forward_plane] /\
  kinetic_mu_forward half_forward_plane == 1 # 2 /\
  (exists nfp rod',
     apply_normal_force (base half_forward_plane) sliding_rod = Ok (nfp, rod') /\
     Forall2 veq nfp [V3 0 1 0]) /\
  apply_kinetic_friction sqrt_fl half_forward_plane sliding_rod = Raise TypeError /\
  map (kinetic_mu half_forward_plane) (map np_sign (axial_slip_velocity sqrt_fl dots))
    = [NaN].
Proof.
  cbv zeta. split; [|split; [|split; [|split]]]; try reflexivity.
  - repeat constructor.
  - do 2 eexists. split; [vm_compute; reflexivity|].
    repeat constructor.
Qed.

(** * Further properties of the module *)

(** ** The regularizer: errors, closed form, symmetry *)

Lemma lis_mixed_raises (v : list Q) (tol : Q) :
  length v <> 1%nat -> ~ Forall (fun x => tol < Qabs x) v ->
  linear_interpolation_slip v tol = Raise ValueError.
Proof.
  intros Hlen Hnall.
  unfold linear_interpolation_slip, setitem_row0_pair, np_where.
  fold (slip_mask v tol). cbn [fst snd]. unfold broadcast_to.
  rewrite !length_map.
  destruct (Nat.eqb_spec (length v) (length (nonzero_from 0 (slip_mask v tol))))
    as [Heq | Hne].
  - exfalso. apply Hnall, slip_mask_all.
    apply (nonzero_from_full _ 0). unfold slip_mask at 2.
    by rewrite !length_map.
  - destruct v as [|x [|y v]]; [done | done | reflexivity].
Qed.

(** X1: the regularizer raises exactly on a sequence that does not have
    one element and has an element at or below the threshold, and then
    it is a [ValueError] (the value row does not fit the index array of
    line 14); it never raises anything else. *)
Theorem linear_interpolation_slip_raises_iff (v : list Q) (tol : Q) :
  (linear_interpolation_slip v tol = Raise ValueError <->
   length v <> 1%nat /\ ~ Forall (fun x => tol < Qabs x) v) /\
  (forall e, linear_interpolation_slip v tol = Raise e -> e = ValueError).
Proof.
  split.
  - split; [apply lis_raise_inv | intros [H1 H2]; by apply lis_mixed_raises].
  - intros e He. destruct (lis_raise_inv _ _ _ He) as [H1 H2].
    rewrite (lis_mixed_raises _ _ H1 H2) in He. by injection He.
Qed.

Lemma slip_ramp_linear (tol a : Q) :
  0 < tol -> tol < a -> a <= 2 * tol -> slip_ramp tol a == 2 - a / tol.
Proof.
  intros Htol Hlo Hhi. unfold slip_ramp.
  assert (H1 : 1 < a / tol) by (apply Qlt_shift_div_l; [done | lra]).
  assert (H2 : a / tol <= 2) by (apply Qle_shift_div_r; [done | lra]).
  rewrite Q.min_r by lra. rewrite Qabs_pos by lra. ring.
Qed.

(** X2: when every element is above a strictly positive threshold, the
    factor of an element is the linear ramp [2 - |v|/v_tol] up to twice
    the threshold and 0 from there on. *)
Theorem linear_interpolation_slip_closed_form (v : list Q) (tol : Q) :
  0 < tol -> Forall (fun x => tol < Qabs x) v ->
  exists out,
    linear_interpolation_slip v tol = Ok out /\
    Forall2 (fun x f => (Qabs x <= 2 * tol -> f == 2 - Qabs x / tol) /\
                        (2 * tol <= Qabs x -> f == 0)) v out.
Proof.
  intros Htol Hall. eexists. split; [by apply lis_all_slip|].
  rewrite <- list_fmap_compose. apply Forall2_fmap_r.
  induction Hall as [|x v Hx _ IH]; constructor; [|done].
  cbn. split; intros H.
  - by apply slip_ramp_linear.
  - by apply slip_ramp_saturated.
Qed.

Lemma linear_interpolation_slip_closed_form_witness :
  0 < 1 /\ Forall (fun x => 1 < Qabs x) [3 # 2; -(5)] /\
  exists out,
    linear_interpolation_slip [3 # 2; -(5)] 1 = Ok out /\
    Forall2 (fun x f => (Qabs x <= 2 * 1 -> f == 2 - Qabs x / 1) /\
                        (2 * 1 <= Qabs x -> f == 0)) [3 # 2; -(5)] out.
Proof.
  assert (H : Forall (fun x => 1 < Qabs x) [3 # 2; -(5)])
    by (repeat constructor).
  split; [reflexivity|]. split; [exact H|].
  exact (linear_interpolation_slip_closed_form [3 # 2; -(5)] 1 eq_refl H).
Defined.

Lemma Qabs_opp_eq (x : Q) : Qabs (- x) = Qabs x.
Proof. destruct x as [a b]. unfold Qabs, Qopp. cbn. by rewrite Z.abs_opp. Qed.

(** X3: the regularizer sees only magnitudes: negating every slip
    velocity changes neither the factors nor whether it raises. *)
Theorem linear_interpolation_slip_even (v : list Q) (tol : Q) :
  linear_interpolation_slip (map Qopp v) tol = linear_interpolation_slip v tol.
Proof.
  unfold linear_interpolation_slip.
  assert (H : map Qabs (map Qopp v) = map Qabs v).
  { rewrite <- list_fmap_compose. apply list_fmap_ext. intros i x _. apply Qabs_opp_eq. }
  by rewrite H, length_map.
Qed.

(** ** Normal-contact resolution: frame, errors, index arrays *)

Lemma broadcast_to_length {A} (value v : list A) (m : nat) :
  broadcast_to value m = Ok v -> length v = m.
Proof.
  unfold broadcast_to. destruct (Nat.eqb_spec (length value) m) as [He | Hne].
  - by intros [= <-].
  - destruct value as [|x [|y value]]; try discriminate.
    intros [= <-]. apply length_replicate.
Qed.

Lemma iadd_length (target value s : list vec3) :
  iadd target value = Ok s -> length s = length target.
Proof.
  unfold iadd. intros (v & Hv%broadcast_to_length & [= <-])%bind_Ok_inv.
  rewrite length_zip_with. lia.
Qed.

Lemma iadd_init_slice_length (a value a' : list vec3) :
  iadd_init_slice a value = Ok a' -> length a' = length a.
Proof.
  unfold iadd_init_slice. intros (s & Hs%iadd_length & [= <-])%bind_Ok_inv.
  rewrite length_app, Hs, length_init_slice, length_drop. lia.
Qed.

Lemma iadd_tail_slice_length (a value a' : list vec3) :
  iadd_tail_slice a value = Ok a' -> length a' = length a.
Proof.
  unfold iadd_tail_slice. intros (s & Hs%iadd_length & [= <-])%bind_Ok_inv.
  rewrite length_app, Hs, length_tail_slice, length_take. lia.
Qed.

(** X4: whenever [apply_normal_force] returns, the rod it leaves has the
    position, velocity, tangents, radii and internal forces it came with
    and an external-force array of the same number of columns; a
    well-shaped rod never makes it raise. *)
Theorem apply_normal_force_frame (self : InteractionPlane) (rod : Rod) :
  match apply_normal_force self rod with
  | Ok (_, rod') =>
      position rod' = position rod /\ velocity rod' = velocity rod /\
      tangents rod' = tangents rod /\ r rod' = r rod /\
      internal_forces rod' = internal_forces rod /\
      length (external_forces rod') = length (external_forces rod)
  | Raise _ => well_shaped rod = false
  end.
Proof.
  destruct (apply_normal_force self rod) as [[nfp rod']|e] eqn:E;
    [|by apply (apply_normal_force_raise self rod e)].
  unfold apply_normal_force in E.
  apply bind_Ok_inv in E as (resp & _ & E).
  apply bind_Ok_inv in E as (ext1 & H1%iadd_init_slice_length & E).
  apply bind_Ok_inv in E as (ext2 & H2%iadd_tail_slice_length & E).
  injection E as _ <-. cbn. repeat (split; [reflexivity|]). congruence.
Qed.

Lemma broadcast2_mismatch {A B C} (f : A -> B -> C) (xs : list A) (ys : list B) :
  length xs <> length ys -> length xs <> 1%nat -> length ys <> 1%nat ->
  broadcast2 f xs ys = Raise ValueError.
Proof.
  intros Hne Hx Hy. unfold broadcast2.
  destruct (Nat.eqb_spec (length xs) (length ys)); [done|].
  destruct xs as [|x [|x' xs]]; [|done|]; by destruct ys as [|y [|y' ys]].
Qed.

(** X5: internal and external force arrays with different numbers of
    columns, neither of them a single column, make [apply_normal_force]
    raise [ValueError] (the sum of line 34 does not broadcast). *)
Theorem apply_normal_force_force_shapes (self : InteractionPlane) (rod : Rod) :
  length (internal_forces rod) <> length (external_forces rod) ->
  length (internal_forces rod) <> 1%nat ->
  length (external_forces rod) <> 1%nat ->
  apply_normal_force self rod = Raise ValueError.
Proof.
  intros H1 H2 H3. unfold apply_normal_force, plane_response, forces_normal_direction.
  by rewrite broadcast2_mismatch.
Qed.

Lemma np_where_index_elem (mask : list bool) (i : nat) :
  i ∈ as_index_array (np_where mask) <->
  mask !! i = Some true \/ (i = 0%nat /\ exists p, mask !! p = Some true).
Proof.
  unfold as_index_array. rewrite elem_of_app, np_where_cols_elem.
  unfold np_where. cbn [fst]. rewrite elem_of_replicate. split.
  - intros [[-> Hm] | H]; [|by left]. right. split; [done|].
    destruct (nonzero_from 0 mask) as [|c cols] eqn:E; [done|].
    exists c. apply np_where_cols_elem. unfold np_where. cbn [snd]. rewrite E.
    apply elem_of_cons. by left.
  - intros [H | [-> (p & Hp)]]; [by right|]. left. split; [done|].
    apply np_where_cols_elem in Hp. unfold np_where in Hp. cbn [snd] in Hp.
    destruct (nonzero_from 0 mask); [by apply elem_of_nil in Hp | done].
Qed.

Lemma apply_normal_force_Ok_trace (self : InteractionPlane) (rod rod' : Rod)
    (nfp : list vec3) :
  apply_normal_force self rod = Ok (nfp, rod') ->
  exists fnd fn el total, response_trace self rod fnd fn el nfp total.
Proof.
  unfold apply_normal_force. intros E.
  apply bind_Ok_inv in E as ([nfp0 total] & Hresp & E).
  apply bind_Ok_inv in E as (ext1 & _ & E).
  apply bind_Ok_inv in E as (ext2 & _ & E).
  injection E as <- _. cbn [fst].
  apply plane_response_inv in Hresp as (fnd & fn & el & Htr). by exists fnd, fn, el, total.
Qed.

(** X6: the index of line 38 is the whole pair of [np.where], whose row
    part is all zeros: as soon as one element has a strictly positive
    net force along the normal, the projected term returned for element
    0 is the zero vector, whatever the load on element 0. *)
Theorem positive_load_zeroes_element_0 (self : InteractionPlane) (rod rod' : Rod)
    (nfp : list vec3) (fnd : list Q) (j : nat) (f : Q) :
  apply_normal_force self rod = Ok (nfp, rod') ->
  forces_normal_direction self rod = Ok fnd ->
  fnd !! j = Some f -> 0 < f ->
  nfp !! 0%nat = Some vzero.
Proof.
  intros Hok Hfnd Hj Hf.
  destruct (apply_normal_force_Ok_trace _ _ _ _ Hok)
    as (fnd' & fn & el & total & [Hfnd' Hfn Hel Hnfp Htot]).
  rewrite Hfnd in Hfnd'. injection Hfnd' as <-.
  destruct (normal_force_plane_cols _ _ _ _ Hnfp) as (_ & _ & Hkeep).
  apply Hkeep. unfold forces_normal in Hfn.
  apply setitem_scalar_inv in Hfn as (_ & Hin & _). apply Hin.
  apply np_where_index_elem. right. split; [done|]. exists j.
  rewrite list_lookup_fmap, Hj. cbn. f_equal. by apply Qgtb_true.
Qed.

Lemma positive_load_zeroes_element_0_witness :
  exists nfp rod' fnd f0 f1,
    apply_normal_force ground seesaw_rod = Ok (nfp, rod') /\
    forces_normal_direction ground seesaw_rod = Ok fnd /\
    fnd !! 1%nat = Some f1 /\ 0 < f1 /\
    fnd !! 0%nat = Some f0 /\ f0 < 0 /\
    nfp !! 0%nat = Some vzero.
Proof.
  do 5 eexists.
  split; [vm_compute; reflexivity|]. split; [vm_compute; reflexivity|].
  split; [reflexivity|]. split; [reflexivity|].
  split; [reflexivity|]. split; [reflexivity|].
  eapply (positive_load_zeroes_element_0 ground seesaw_rod _ _ _ 1%nat);
    [vm_compute; reflexivity | vm_compute; reflexivity | reflexivity | reflexivity].
Defined.

Lemma apply_normal_force_force_shapes_witness :
  length (internal_forces ragged_rod) <> length (external_forces ragged_rod) /\
  length (internal_forces ragged_rod) <> 1%nat /\
  length (external_forces ragged_rod) <> 1%nat /\
  apply_normal_force ground ragged_rod = Raise ValueError.
Proof.
  assert (H1 : length (internal_forces ragged_rod) <> length (external_forces ragged_rod))
    by (cbn; lia).
  assert (H2 : length (internal_forces ragged_rod) <> 1%nat) by (cbn; lia).
  assert (H3 : length (external_forces ragged_rod) <> 1%nat) by (cbn; lia).
  repeat (split; [assumption|]).
  exact (apply_normal_force_force_shapes ground ragged_rod H1 H2 H3).
Defined.

(** X7: for an element in contact (distance at most [surface_tol]) whose
    net force along the normal is not positive, and which is not caught
    by the zeroing of line 38 (it is not element 0, or no element has a
    positive net force along the normal), the vector returned is the
    reversed projected force [-(f n)], whose component along the normal
    is [-f (n.n)]. *)
Theorem contact_reaction_cancels_load (self : InteractionPlane) (rod rod' : Rod)
    (nfp : list vec3) (fnd : list Q) (j : nat) (f d : Q) :
  apply_normal_force self rod = Ok (nfp, rod') ->
  forces_normal_direction self rod = Ok fnd ->
  fnd !! j = Some f -> f <= 0 ->
  distance_from_plane self rod !! j = Some d -> d <= surface_tol self ->
  j <> 0%nat \/ Forall (fun g => g <= 0) fnd ->
  nfp !! j = Some (vneg (vscale f (normal_plane self))) /\
  vdot (normal_plane self) (vneg (vscale f (normal_plane self)))
    == - f * vdot (normal_plane self) (normal_plane self).
Proof.
  intros Hok Hfnd Hj Hf Hd Hdle Hfree.
  destruct (apply_normal_force_Ok_trace _ _ _ _ Hok)
    as (fnd' & fn & el & total & [Hfnd' Hfn Hel Hnfp Htot]).
  rewrite Hfnd in Hfnd'. injection Hfnd' as <-.
  split; [|unfold vdot, vneg, vscale; cbn [vx vy vz]; ring].
  assert (Hfnj : fn !! j = Some (vscale f (normal_plane self))).
  { unfold forces_normal in Hfn. apply setitem_scalar_inv in Hfn as (_ & _ & Hnin).
    rewrite Hnin; [unfold outer; by rewrite list_lookup_fmap, Hj|].
    rewrite np_where_index_elem. intros [Hm | [-> (p & Hp)]].
    - rewrite list_lookup_fmap, Hj in Hm. cbn in Hm. injection Hm as Hm.
      apply Qgtb_true in Hm. lra.
    - destruct Hfree as [? | Hall]; [done|].
      rewrite list_lookup_fmap in Hp.
      destruct (fnd !! p) as [g|] eqn:Hg; [|discriminate]. cbn in Hp.
      injection Hp as Hp. apply Qgtb_true in Hp.
      rewrite Forall_lookup in Hall. specialize (Hall p g Hg). lra. }
  unfold normal_force_plane, no_contact_pts in Hnfp.
  apply setitem_scalar_inv in Hnfp as (_ & _ & Hnin).
  rewrite Hnin; [by rewrite list_lookup_fmap, Hfnj|].
  rewrite np_where_cols_elem, list_lookup_fmap, Hd. cbn. intros [= Hm].
  apply Qgtb_true in Hm. lra.
Qed.

Lemma contact_reaction_cancels_load_witness :
  exists nfp rod' fnd f d,
    apply_normal_force ground pressed_rod = Ok (nfp, rod') /\
    forces_normal_direction ground pressed_rod = Ok fnd /\
    fnd !! 0%nat = Some f /\ f <= 0 /\
    distance_from_plane ground pressed_rod !! 0%nat = Some d /\ d <= surface_tol ground /\
    (0%nat <> 0%nat \/ Forall (fun g => g <= 0) fnd) /\
    nfp !! 0%nat = Some (vneg (vscale f (normal_plane ground))) /\
    vdot (normal_plane ground) (vneg (vscale f (normal_plane ground)))
      == - f * vdot (normal_plane ground) (normal_plane ground).
Proof.
  do 5 eexists.
  split; [vm_compute; reflexivity|]. split; [vm_compute; reflexivity|].
  split; [reflexivity|]. split; [by vm_compute|].
  split; [vm_compute; reflexivity|]. split; [by vm_compute|].
  split; [right; repeat constructor; by vm_compute|].
  eapply (contact_reaction_cancels_load ground pressed_rod _ _ _ 0%nat);
    [vm_compute; reflexivity | vm_compute; reflexivity | reflexivity | by vm_compute
    | vm_compute; reflexivity | by vm_compute | right; repeat constructor; by vm_compute].
Defined.

(** ** The elastic and the damping term *)

Lemma vdot_scaled_normal (n : vec3) (a b : Q) :
  vdot n (vscale a (vscale b n)) == a * b * vdot n n.
Proof. unfold vdot, vscale. cbn [vx vy vz]. ring. Qed.

Lemma vdot_self_nonneg (n : vec3) : 0 <= vdot n n.
Proof.
  unfold vdot. pose proof (Qsquare_nonneg (vx n)). pose proof (Qsquare_nonneg (vy n)).
  pose proof (Qsquare_nonneg (vz n)). lra.
Qed.

(** X8: with as many radii as elements the elastic term of element [j] is
    [-k min(d_j - r_j, 0) n]; for a stiffness [k >= 0] its component
    along the normal is never negative, and it vanishes for an element
    whose distance is at least its radius. *)
Theorem elastic_force_pushes_out (self : InteractionPlane) (rod : Rod) :
  0 <= k self -> length (r rod) = pred (length (position rod)) ->
  exists el,
    elastic_force self rod = Ok el /\ length el = length (r rod) /\
    forall j d rj, distance_from_plane self rod !! j = Some d -> r rod !! j = Some rj ->
      exists e, el !! j = Some e /\
        e = vscale (- k self) (vscale (Qmin (d - rj) 0) (normal_plane self)) /\
        0 <= vdot (normal_plane self) e /\
        (rj <= d -> e =v= vzero).
Proof.
  intros Hk Hlen. unfold elastic_force.
  rewrite broadcast2_same, bind_Ok by (by rewrite length_distance_from_plane).
  eexists. split; [reflexivity|]. split.
  { unfold outer. rewrite !length_map, length_zip_with, length_distance_from_plane. lia. }
  intros j d rj Hd Hr. eexists. split.
  { unfold outer. rewrite !list_lookup_fmap, lookup_zip_with, Hd. cbn. rewrite Hr.
    reflexivity. }
  split; [reflexivity|].
  pose proof (Q.le_min_r (d - rj) 0) as Hmin. split.
  - rewrite vdot_scaled_normal. pose proof (vdot_self_nonneg (normal_plane self)).
    apply Qmult_le_0_compat; [|done].
    assert (E : - k self * Qmin (d - rj) 0 == k self * - Qmin (d - rj) 0) by ring.
    rewrite E. apply Qmult_le_0_compat; lra.
  - intros Hle. assert (Hz : Qmin (d - rj) 0 == 0) by (apply Q.min_r; lra).
    unfold veq, vscale, vzero. cbn [vx vy vz]. rewrite Hz. repeat split; ring.
Qed.

Lemma elastic_force_pushes_out_witness :
  0 <= k ground /\ length (r hovering_rod) = pred (length (position hovering_rod)) /\
  exists el,
    elastic_force ground hovering_rod = Ok el /\ length el = length (r hovering_rod) /\
    forall j d rj, distance_from_plane ground hovering_rod !! j = Some d ->
      r hovering_rod !! j = Some rj ->
      exists e, el !! j = Some e /\
        e = vscale (- k ground) (vscale (Qmin (d - rj) 0) (normal_plane ground)) /\
        0 <= vdot (normal_plane ground) e /\
        (rj <= d -> e =v= vzero).
Proof.
  assert (Hk : 0 <= k ground) by (by vm_compute).
  split; [exact Hk|]. split; [reflexivity|].
  exact (elastic_force_pushes_out ground hovering_rod Hk eq_refl).
Defined.

(** X9: the damping term of element [j] is [-nu (n.v_j) n] for the
    element-averaged velocity [v_j]; it has one column per element, and
    for a damping coefficient [nu >= 0] its component along the normal
    never has the sign of the normal velocity. *)
Theorem damping_force_opposes_velocity (self : InteractionPlane) (rod : Rod) :
  0 <= nu self ->
  length (damping_force self rod) = pred (length (velocity rod)) /\
  forall j v, node_average (velocity rod) !! j = Some v ->
    exists dm, damping_force self rod !! j = Some dm /\
      dm = vscale (- nu self) (vscale (vdot (normal_plane self) v) (normal_plane self)) /\
      vdot (normal_plane self) v * vdot (normal_plane self) dm <= 0.
Proof.
  intros Hnu. split; [apply length_damping_force|].
  intros j v Hv. eexists. split.
  { unfold damping_force, outer, matvec. rewrite !list_lookup_fmap, Hv. reflexivity. }
  split; [reflexivity|]. rewrite vdot_scaled_normal.
  set (s := vdot (normal_plane self) v).
  pose proof (vdot_self_nonneg (normal_plane self)) as Hn.
  pose proof (Qsquare_nonneg s) as Hs.
  assert (E : s * (- nu self * s * vdot (normal_plane self) (normal_plane self))
              == - (nu self * ((s * s) * vdot (normal_plane self) (normal_plane self))))
    by ring.
  rewrite E.
  assert (0 <= nu self * ((s * s) * vdot (normal_plane self) (normal_plane self))).
  { apply Qmult_le_0_compat; [done|]. by apply Qmult_le_0_compat. }
  lra.
Qed.

Lemma damping_force_opposes_velocity_witness :
  0 <= nu ground /\
  length (damping_force ground falling_rod) = pred (length (velocity falling_rod)) /\
  forall j v, node_average (velocity falling_rod) !! j = Some v ->
    exists dm, damping_force ground falling_rod !! j = Some dm /\
      dm = vscale (- nu ground) (vscale (vdot (normal_plane ground) v) (normal_plane ground)) /\
      vdot (normal_plane ground) v * vdot (normal_plane ground) dm <= 0.
Proof.
  assert (Hnu : 0 <= nu ground) by (by vm_compute).
  split; [exact Hnu|].
  exact (damping_force_opposes_velocity ground falling_rod Hnu).
Defined.

(** ** Conservation of the scattered force *)

#[global] Instance vscale_proper (c : Q) : Proper (veq ==> veq) (vscale c).
Proof.
  intros a b (Hx & Hy & Hz). unfold veq, vscale. cbn [vx vy vz].
  rewrite Hx, Hy, Hz. done.
Qed.

Lemma vsum_app (a b : list vec3) : vsum (a ++ b) =v= vadd (vsum a) (vsum b).
Proof.
  induction a as [|x a IH]; cbn.
  - symmetry. apply vadd_zero_l.
  - fold (vsum (a ++ b)) (vsum a). rewrite IH. vec_crush.
Qed.

Lemma vsum_zip_with_vadd (a b : list vec3) :
  length a = length b -> vsum (zip_with vadd a b) =v= vadd (vsum a) (vsum b).
Proof.
  revert b. induction a as [|x a IH]; intros [|y b] Hlen; try discriminate; cbn.
  - symmetry. apply vadd_zero_l.
  - fold (vsum (zip_with vadd a b)) (vsum a) (vsum b).
    rewrite IH by (cbn in Hlen; lia). vec_crush.
Qed.

Lemma vsum_halved (a : list vec3) :
  vadd (vsum (map (vscale half) a)) (vsum (map (vscale half) a)) =v= vsum a.
Proof.
  induction a as [|x a IH]; cbn.
  - apply vadd_zero_l.
  - fold (vsum (map (vscale half) a)) (vsum a). rewrite <- IH. vec_crush.
Qed.

Lemma iadd_init_slice_sum (ext h : list vec3) :
  length h = pred (length ext) ->
  exists ext1, iadd_init_slice ext h = Ok ext1 /\ length ext1 = length ext /\
               vsum ext1 =v= vadd (vsum ext) (vsum h).
Proof.
  intros Hlen. unfold iadd_init_slice, iadd.
  rewrite broadcast_to_same, !bind_Ok by (by rewrite length_init_slice).
  eexists. split; [reflexivity|]. split.
  { rewrite length_app, length_zip_with, length_init_slice, length_drop. lia. }
  rewrite vsum_app, vsum_zip_with_vadd by (by rewrite length_init_slice).
  assert (Hext : vsum ext =v= vadd (vsum (take (pred (length ext)) ext))
                                   (vsum (drop (pred (length ext)) ext)))
    by (by rewrite <- vsum_app, take_drop).
  unfold init_slice. vec_crush.
Qed.

Lemma iadd_tail_slice_sum (ext h : list vec3) :
  length h = pred (length ext) ->
  exists ext2, iadd_tail_slice ext h = Ok ext2 /\
               vsum ext2 =v= vadd (vsum ext) (vsum h).
Proof.
  intros Hlen. unfold iadd_tail_slice, iadd.
  rewrite broadcast_to_same, !bind_Ok by (by rewrite length_tail_slice).
  eexists. split; [reflexivity|].
  rewrite vsum_app, vsum_zip_with_vadd by (by rewrite length_tail_slice).
  assert (Hext : vsum ext =v= vadd (vsum (take 1 ext)) (vsum (drop 1 ext)))
    by (by rewrite <- vsum_app, take_drop).
  unfold tail_slice. vec_crush.
Qed.

(** X10: on a well-shaped rod the columns of the external-force array
    grow, summed over all nodes, by exactly the sum of the per-element
    total contact forces: the split onto the nodes neither creates nor
    loses force. *)
Theorem apply_normal_force_conserves_total (self : InteractionPlane) (rod : Rod) :
  well_shaped rod = true ->
  exists nfp total rod',
    plane_response self rod = Ok (nfp, total) /\
    apply_normal_force self rod = Ok (nfp, rod') /\
    vsum (external_forces rod') =v= vadd (vsum (external_forces rod)) (vsum total).
Proof.
  intros Hws.
  destruct (apply_normal_force_well_shaped self rod Hws)
    as (fnd & fn & el & nfp & total & _ & Htr & _ & _ & _ & Lt & _).
  pose proof (well_shaped_lengths rod Hws) as (_ & _ & He & _).
  set (h := map (vscale half) total).
  assert (Lh : length h = pred (length (external_forces rod)))
    by (unfold h; rewrite length_map; congruence).
  destruct (iadd_init_slice_sum _ _ Lh) as (ext1 & H1 & L1 & S1).
  destruct (iadd_tail_slice_sum ext1 h) as (ext2 & H2 & S2); [congruence|].
  exists nfp, total, (set_external_forces rod ext2).
  pose proof (plane_response_trace _ _ _ _ _ _ _ Htr) as Hresp.
  split; [done|]. split.
  - unfold apply_normal_force. rewrite Hresp, bind_Ok. cbn [fst snd]. fold h.
    by rewrite H1, bind_Ok, H2, bind_Ok.
  - cbn [external_forces set_external_forces]. rewrite S2, S1.
    pose proof (vsum_halved total) as Hh. fold h in Hh. vec_crush.
Qed.

Lemma apply_normal_force_conserves_total_witness :
  well_shaped seesaw_rod = true /\
  exists nfp total rod',
    plane_response ground seesaw_rod = Ok (nfp, total) /\
    apply_normal_force ground seesaw_rod = Ok (nfp, rod') /\
    vsum (external_forces rod')
      =v= vadd (vsum (external_forces seesaw_rod)) (vsum total).
Proof.
  split; [reflexivity|].
  exact (apply_normal_force_conserves_total ground seesaw_rod eq_refl).
Defined.

(** ** Degenerate rods and index bounds *)

(** X12: on a well-shaped rod of at most one node there is no element:
    [apply_normal_force] returns an empty array and leaves the rod as it
    found it. *)
Theorem apply_normal_force_no_element (self : InteractionPlane) (rod : Rod) :
  well_shaped rod = true -> (length (position rod) <= 1)%nat ->
  apply_normal_force self rod = Ok ([], rod).
Proof.
  intros (Hv & Hi & He & Hr & Ht)%well_shaped_lengths Hle.
  destruct rod as [p v t rr fi fe]. cbn [position velocity tangents r
    internal_forces external_forces] in *.
  destruct p as [|x [|y p]]; cbn in Hle, Hv, Hi, He, Hr, Ht; [| |lia].
  - destruct v, t, rr, fi, fe; try discriminate. reflexivity.
  - destruct v as [|? [|]], t, rr, fi as [|? [|]], fe as [|? [|]]; try discriminate.
    reflexivity.
Qed.

Lemma apply_normal_force_no_element_witness :
  well_shaped point_rod = true /\ (length (position point_rod) <= 1)%nat /\
  apply_normal_force ground point_rod = Ok ([], point_rod).
Proof.
  assert (Hle : (length (position point_rod) <= 1)%nat) by (cbn; lia).
  split; [reflexivity|]. split; [exact Hle|].
  exact (apply_normal_force_no_element ground point_rod eq_refl Hle).
Defined.

Lemma in_bounds_false {A} (a : list A) (idx : list nat) (j : nat) :
  j ∈ idx -> (length a <= j)%nat -> in_bounds a idx = false.
Proof.
  intros Hj Hge. destruct (in_bounds a idx) eqn:E; [|done].
  apply in_bounds_spec in E. rewrite Forall_forall in E. specialize (E j Hj). lia.
Qed.

(** X14: when the position array has more columns than the force arrays
    and an element past the end of the force arrays is out of contact,
    the store of line 47 is out of bounds and [apply_normal_force]
    raises [IndexError]. *)
Theorem apply_normal_force_index_error (self : InteractionPlane) (rod : Rod)
    (j : nat) (d : Q) :
  length (internal_forces rod) = length (external_forces rod) ->
  length (r rod) = pred (length (position rod)) ->
  distance_from_plane self rod !! j = Some d -> surface_tol self < d ->
  (pred (length (internal_forces rod)) <= j)%nat ->
  apply_normal_force self rod = Raise IndexError.
Proof.
  intros Hf Hr Hd Hgt Hj.
  unfold apply_normal_force, plane_response.
  assert (Hfnd : exists fnd, forces_normal_direction self rod = Ok fnd /\
                             length fnd = pred (length (internal_forces rod))).
  { unfold forces_normal_direction. rewrite broadcast2_same, bind_Ok by done.
    eexists. split; [reflexivity|]. unfold matvec.
    rewrite length_map, length_node_average, length_zip_with. lia. }
  destruct Hfnd as (fnd & -> & Lfnd). rewrite bind_Ok.
  assert (Hfn : exists fn, forces_normal self fnd = Ok fn /\ length fn = length fnd).
  { unfold forces_normal. eexists. split.
    - apply setitem_scalar_Ok, np_where_in_bounds. unfold outer. by rewrite !length_map.
    - rewrite foldl_insert_length. unfold outer. by rewrite length_map. }
  destruct Hfn as (fn & -> & Lfn). rewrite bind_Ok.
  assert (Hel : exists el, elastic_force self rod = Ok el).
  { unfold elastic_force.
    rewrite broadcast2_same, bind_Ok by (by rewrite length_distance_from_plane).
    by eexists. }
  destruct Hel as (el & ->). rewrite bind_Ok.
  unfold normal_force_plane, setitem_scalar.
  rewrite (in_bounds_false _ _ j); [reflexivity | |rewrite length_map; lia].
  unfold no_contact_pts. apply np_where_cols_elem.
  rewrite list_lookup_fmap, Hd. cbn. f_equal. by apply Qgtb_true.
Qed.

Lemma apply_normal_force_index_error_witness :
  length (internal_forces overhang_rod) = length (external_forces overhang_rod) /\
  length (r overhang_rod) = pred (length (position overhang_rod)) /\
  (exists d, distance_from_plane ground overhang_rod !! 1%nat = Some d /\
             surface_tol ground < d) /\
  (pred (length (internal_forces overhang_rod)) <= 1)%nat /\
  apply_normal_force ground overhang_rod = Raise IndexError.
Proof.
  assert (Hj : (pred (length (internal_forces overhang_rod)) <= 1)%nat) by (cbn; lia).
  assert (Hd : distance_from_plane ground overhang_rod !! 1%nat = Some (1000 # 1000))
    by (vm_compute; reflexivity).
  assert (Hgt : surface_tol ground < 1000 # 1000) by reflexivity.
  split; [reflexivity|]. split; [reflexivity|]. split; [by eexists|]. split; [exact Hj|].
  exact (apply_normal_force_index_error ground overhang_rod 1 _ eq_refl eq_refl Hd Hgt Hj).
Defined.

(** ** Construction and the kinetic coefficient *)

(** X11: the friction plane is constructed exactly when both coefficient
    arrays have at least three entries, and fails with [IndexError]
    otherwise; the plane constructed carries entries 0, 1 and 2 of each
    array as the forward, backward and sideways coefficient, the slip
    tolerance it was given and the base plane of the same arguments;
    entries past the third are ignored. *)
Theorem AnistropicFrictionalPlane_init_fields
    (k nu tol : Q) (origin normal : vec3) (smu kmu : list Q) :
  match AnistropicFrictionalPlane_init k nu origin normal tol smu kmu with
  | Ok p =>
      base p = InteractionPlane_init k nu origin normal /\
      slip_velocity_tol p = tol /\
      smu !! 0%nat = Some (static_mu_forward p) /\
      smu !! 1%nat = Some (static_mu_backward p) /\
      smu !! 2%nat = Some (static_mu_sideways p) /\
      kmu !! 0%nat = Some (kinetic_mu_forward p) /\
      kmu !! 1%nat = Some (kinetic_mu_backward p) /\
      kmu !! 2%nat = Some (kinetic_mu_sideways p)
  | Raise e => e = IndexError /\ ((length smu < 3)%nat \/ (length kmu < 3)%nat)
  end.
Proof.
  unfold AnistropicFrictionalPlane_init, getitem.
  destruct smu as [|s0 [|s1 [|s2 smu]]]; cbn; try (split; [done | left; lia]).
  destruct kmu as [|k0 [|k1 [|k2 kmu]]]; cbn; try (split; [done | right; lia]).
  done.
Qed.

Lemma Qsign_cases (s : Q) :
  (s < 0 /\ Qsign s = -(1)) \/ (s == 0 /\ Qsign s = 0) \/ (0 < s /\ Qsign s = 1).
Proof.
  unfold Qsign. destruct (Qcompare s 0) eqn:E.
  - right. left. split; [by apply Qeq_alt | done].
  - left. split; [by apply Qlt_alt | done].
  - right. right. split; [by apply Qgt_alt | done].
Qed.

(** X13: lines 80-83 blend the kinetic coefficient from the sign of a
    square root: for a negative projected velocity the coefficient is
    NaN; otherwise it is the backward coefficient when the root is
    positive and the mean of the two coefficients when the root is 0;
    the sign -1 that would select the forward coefficient never
    arises. *)
Theorem kinetic_mu_of_sqrt_sign
    (sqrt_fl : Q -> Q) (self : AnistropicFrictionalPlane) (d : Q) :
  (forall x, 0 <= x -> 0 <= sqrt_fl x) ->
  match kinetic_mu self (np_sign (np_sqrt sqrt_fl d)) with
  | NaN => d < 0
  | Fin m =>
      0 <= d /\ np_sign (np_sqrt sqrt_fl d) <> Fin (-(1)) /\
      (0 < sqrt_fl d \/ sqrt_fl d == 0) /\
      (0 < sqrt_fl d -> m == kinetic_mu_backward self) /\
      (sqrt_fl d == 0 ->
       m == (kinetic_mu_forward self + kinetic_mu_backward self) / 2)
  end.
Proof.
  intros Hsqrt. unfold np_sqrt.
  destruct (Qgtb 0 d) eqn:E; cbn.
  - by apply Qgtb_true.
  - apply Qgtb_false in E. specialize (Hsqrt d E).
    split; [done|].
    destruct (Qsign_cases (sqrt_fl d)) as [[Hs ->] | [[Hs ->] | [Hs ->]]].
    + exfalso. lra.
    + split; [done|]. split; [by right|]. split.
      * intros Hpos. exfalso. lra.
      * intros _. unfold half. field.
    + split; [done|]. split; [by left|]. split.
      * intros _. unfold half. ring.
      * intros Hz. exfalso. lra.
Qed.

Lemma kinetic_mu_of_sqrt_sign_witness :
  (forall x : Q, 0 <= x -> 0 <= x) /\
  match kinetic_mu half_forward_plane (np_sign (np_sqrt (fun x => x) 4)) with
  | NaN => 4 < 0
  | Fin m =>
      0 <= 4 /\ np_sign (np_sqrt (fun x => x) 4) <> Fin (-(1)) /\
      (0 < 4 \/ 4 == 0) /\
      (0 < 4 -> m == kinetic_mu_backward half_forward_plane) /\
      (4 == 0 ->
       m == (kinetic_mu_forward half_forward_plane
             + kinetic_mu_backward half_forward_plane) / 2)
  end.
Proof.
  split; [intros x Hx; exact Hx|].
  exact (kinetic_mu_of_sqrt_sign (fun x => x) half_forward_plane 4 (fun x Hx => Hx)).
Defined.
